(** * MPK Mini Plus Editor: the main window ([ui/main_ui.py])

    A shallow embedding of [UiMainWindow] and of the collaborators it calls
    ([core.config.Config], [core.midi_interface.AkaiMPKPlus], the widget
    groups of a programme tab, the file system and the modal dialogs),
    followed by the properties of the operations the window offers:
    get / send / copy / load / save. *)

From Stdlib Require Import ZArith String Ascii.
From Stdlib.Strings Require Import Byte.
From stdpp Require Import base option list strings gmap fin_maps.

Local Open Scope string_scope.
Local Open Scope list_scope.
Local Open Scope Z_scope.

(** ** Python values *)

(** Exceptions that can escape a method of the window. *)
Inductive exn :=
| IndexError          (* [self.progs[p_i]] out of range *)
| AttributeError      (* [conf.pad_channel] on an object without it *)
| OverflowError       (* [b.to_bytes(1, 'little')] with b outside 0..255 *)
| FileNotFoundError   (* [open(filepath, 'rb')] on a missing path *)
| MalformedInput      (* the codec rejects the bytes it is given *)
| Raised (name : string).  (* any other exception of a collaborator *)

Inductive res (A : Type) :=
| Ok (a : A)
| Raise (e : exn).
Arguments Ok {A} a.
Arguments Raise {A} e.

(** Modelled from the spec: the class [core.config.Config] is not part of
    the sources at hand.  The window only ever touches a [Config] through
    [add_values(dict)], through the attributes [programme], [pad_channel]
    and [key_channel], and through [serialize()] / [parse_config(list)];
    the specification describes it as a pure data holder with
    [get(field)] / [set(field, value)] access.  An instance is therefore
    its attribute dictionary: field name to integer value. *)
Abbreviation Config := (gmap string Z).

(** Objects live on the Python heap and are handled by reference. *)
Abbreviation ref := nat (only parsing).

(** Modelled from the spec: [Config()], [Config.serialize] and
    [Config.parse_config] (module [core.config], absent).  [parse_config]
    mutates the object it is called on, hence the returned [Config];
    both may raise. *)
Class ConfigClass := {
  Config_init : Config;
  serialize : Config → res (list Z);
  parse_config : list Z → Config → Config * res unit;
}.

(** Modelled from the spec: a group of controls of a programme tab (the
    children [misc], [pads_group_box] and [knobs_group_box] built by
    [ui.programmes], absent).  [values()] returns a dict of configuration
    fields, [fill(config)] shows a configuration in the controls. *)
Class WidgetGroup (W : Type) := {
  values : W → gmap string Z;
  fill : Config → W → W;
}.

(** Modelled from the spec: the object [AkaiMPKPlus] of
    [core.midi_interface] (absent), as far as the window uses it. *)
Class MidiInterface (Midi : Type) := {
  connected : Midi → bool;
  midi_get_programme : Z → Midi → Midi * res Config;
  midi_send_midi_message : list Z → Midi → Midi * res unit;
}.

(** ** Python built-ins used by the window *)

(** [l[i]] on a Python list: negative indices count from the end. *)
Definition py_pos {A} (l : list A) (i : Z) : option nat :=
  let n := Z.of_nat (length l) in
  if bool_decide (0 ≤ i < n) then Some (Z.to_nat i)
  else if bool_decide (- n ≤ i < 0) then Some (Z.to_nat (n + i))
  else None.

Definition py_index {A} (l : list A) (i : Z) : option A :=
  k ← py_pos l i; l !! k.

(** [range(a, b)] *)
Definition range (a b : Z) : list Z := seqZ a (b - a).

(** [s.endswith(suffix)] *)
Definition endswith (s suffix : string) : bool :=
  let n := String.length s in
  let m := String.length suffix in
  (m <=? n)%nat && String.eqb (String.substring (n - m) m s) suffix.

(** [int(i)] for a byte [i] of a [bytes] object. *)
Definition int_of_byte (b : byte) : Z := Z.of_N (Byte.to_N b).

(** [b.to_bytes(1, 'little')]: defined on 0..255 only. *)
Definition to_bytes (b : Z) : option byte :=
  if bool_decide (0 ≤ b) then Byte.of_N (Z.to_N b) else None.

(** ** The world the window runs in *)

Inductive button := ButtonRetry | ButtonClose.

(** Calls that leave the window, in the order they happen. *)
Inductive event :=
| EvConfig                         (* Config() *)
| EvConnect (ok : bool)            (* AkaiMPKPlus(), with its [connected] *)
| EvDialog (b : button)            (* QMessageBox.exec() and its answer *)
| EvGetProgramme (slot : Z)        (* self.midi.get_programme(slot) *)
| EvSend (message : list Z)        (* self.midi.send_midi_message(message) *)
| EvOpen (path : string) (writing : bool)   (* open(path, 'rb' / 'wb') *)
| EvPrint (words : list string).   (* print(...) *)

Section MainWindow.

Context {Midi MiscW PadsW KnobsW : Type}.
Context `{!ConfigClass, !MidiInterface Midi}.
Context `{!WidgetGroup MiscW, !WidgetGroup PadsW, !WidgetGroup KnobsW}.

(** One tab of [self.progs]; the fields are the children looked up with
    [findChild]. *)
Record Prog := {
  misc : MiscW;
  pads_group_box : PadsW;
  knobs_group_box : KnobsW;
}.

Record World := {
  midi : Midi;                       (* self.midi *)
  progs : list Prog;                 (* self.progs *)
  currentIndex : Z;                  (* self.programmes.currentIndex() *)
  heap : list Config;                (* every Config object made so far *)
  files : gmap string (list byte);   (* the file system *)
  log : list event;                  (* calls made so far, oldest first *)
}.

Definition set_midi (m : Midi) (w : World) : World :=
  {| midi := m; progs := progs w; currentIndex := currentIndex w;
     heap := heap w; files := files w; log := log w |}.
Definition set_progs (p : list Prog) (w : World) : World :=
  {| midi := midi w; progs := p; currentIndex := currentIndex w;
     heap := heap w; files := files w; log := log w |}.
Definition set_currentIndex (i : Z) (w : World) : World :=
  {| midi := midi w; progs := progs w; currentIndex := i;
     heap := heap w; files := files w; log := log w |}.
Definition set_heap (h : list Config) (w : World) : World :=
  {| midi := midi w; progs := progs w; currentIndex := currentIndex w;
     heap := h; files := files w; log := log w |}.
Definition set_files (f : gmap string (list byte)) (w : World) : World :=
  {| midi := midi w; progs := progs w; currentIndex := currentIndex w;
     heap := heap w; files := f; log := log w |}.
Definition emit (e : event) (w : World) : World :=
  {| midi := midi w; progs := progs w; currentIndex := currentIndex w;
     heap := heap w; files := files w; log := log w ++ [e] |}.

(** A method is a state transformer that may raise; the state survives
    the exception. *)
Definition M (A : Type) : Type := World → World * res A.

#[export] Instance M_ret : MRet M := λ A a w, (w, Ok a).
#[export] Instance M_bind : MBind M := λ A B f m w,
  match m w with
  | (w', Ok a) => f a w'
  | (w', Raise e) => (w', Raise e)
  end.

Definition raise {A} (e : exn) : M A := λ w, (w, Raise e).
Definition tell (e : event) : M unit := λ w, (emit e w, Ok tt).

(** [Config()] *)
Definition Config_new : M ref := λ w,
  (set_heap (heap w ++ [Config_init]) (emit EvConfig w), Ok (length (heap w))).

(** The attribute dictionary of an object. *)
Definition deref (r : ref) : M Config := λ w, (w, Ok (heap w !!! r)).

(** [config.add_values(d)]: every entry of [d] becomes an attribute. *)
Definition add_values (r : ref) (d : gmap string Z) : M unit := λ w,
  (set_heap (alter (λ c, d ∪ c) r (heap w)) w, Ok tt).

(** [config.name] *)
Definition getattr (r : ref) (name : string) : M Z := λ w,
  match (heap w !!! r) !! name with
  | Some v => (w, Ok v)
  | None => (w, Raise AttributeError)
  end.

(** [config.name = v] *)
Definition setattr (r : ref) (name : string) (v : Z) : M unit := λ w,
  (set_heap (alter (λ c, <[name := v]> c) r (heap w)) w, Ok tt).

(** [config.serialize()] and [config.parse_config(conf)] *)
Definition Config_serialize (r : ref) : M (list Z) := λ w,
  (w, serialize (heap w !!! r)).

Definition Config_parse_config (r : ref) (conf : list Z) : M unit := λ w,
  let '(c', result) := parse_config conf (heap w !!! r) in
  (set_heap (<[r := c']> (heap w)) w, result).

(** [self.progs[p_i]]: the position of the tab and the tab itself. *)
Definition progs_getitem (p_i : Z) : M (nat * Prog) := λ w,
  match py_pos (progs w) p_i with
  | Some k =>
      match progs w !! k with
      | Some prog => (w, Ok (k, prog))
      | None => (w, Raise IndexError)
      end
  | None => (w, Raise IndexError)
  end.

(** A widget of tab [k] changes in place. *)
Definition update_prog (k : nat) (f : Prog → Prog) : M unit := λ w,
  (set_progs (alter f k (progs w)) w, Ok tt).

Definition fill_misc (c : Config) (p : Prog) : Prog :=
  {| misc := fill c (misc p); pads_group_box := pads_group_box p;
     knobs_group_box := knobs_group_box p |}.
Definition fill_pads (c : Config) (p : Prog) : Prog :=
  {| misc := misc p; pads_group_box := fill c (pads_group_box p);
     knobs_group_box := knobs_group_box p |}.
Definition fill_knobs (c : Config) (p : Prog) : Prog :=
  {| misc := misc p; pads_group_box := pads_group_box p;
     knobs_group_box := fill c (knobs_group_box p) |}.

(** [for x in l: body(x)], collecting what the body returns. *)
Fixpoint for_each {A} (l : list Z) (body : Z → M A) : M (list A) :=
  match l with
  | [] => mret []
  | x :: rest => a ← body x; others ← for_each rest body; mret (a :: others)
  end.

(** [open(filepath, 'rb')] followed by [f.read()] *)
Definition open_rb (filepath : string) : M (list byte) := λ w,
  match files w !! filepath with
  | Some data => (emit (EvOpen filepath false) w, Ok data)
  | None => (emit (EvOpen filepath false) w, Raise FileNotFoundError)
  end.

(** [open(filepath, 'wb')]: the file is created or emptied. *)
Definition open_wb (filepath : string) : M unit := λ w,
  (set_files (<[filepath := []]> (files w)) (emit (EvOpen filepath true) w), Ok tt).

(** [f.write(b.to_bytes(1, 'little'))] on the file opened at [filepath] *)
Definition f_write (filepath : string) (b : Z) : M unit := λ w,
  match to_bytes b with
  | Some x => (set_files (alter (λ data, data ++ [x]) filepath (files w)) w, Ok tt)
  | None => (w, Raise OverflowError)
  end.

(** ** The methods of [UiMainWindow] *)

(** What the user and the host do while the popup is shown: the user
    closes, or retries and the new [AkaiMPKPlus()] turns out as [m]. *)
Inductive choice :=
| Close
| Retry (m : Midi).

(** How a run of the popup ends; [Waiting]: the scripted choices are used
    up and the dialog is still open. *)
Inductive outcome := Returned | Exited | Waiting.

Fixpoint show_popup_controller_not_found (script : list choice) (w : World)
  : World * outcome :=
  if connected (midi w) then (w, Returned)
  else
    match script with
    | [] => (w, Waiting)
    | Close :: _ => (emit (EvDialog ButtonClose) w, Exited)
    | Retry m :: rest =>
        show_popup_controller_not_found rest
          (emit (EvConnect (connected m))
             (set_midi m (emit (EvDialog ButtonRetry) w)))
    end.

(** The part of [__init__] that connects: [m] is what the first
    [AkaiMPKPlus()] turns out as. *)
Definition init_midi (m : Midi) (script : list choice) (w : World)
  : World * outcome :=
  let w1 := emit (EvConnect (connected m)) (set_midi m w) in
  if negb (connected (midi w1)) then show_popup_controller_not_found script w1
  else (w1, Returned).

Definition get_active_tab_index : M Z := λ w, (w, Ok (currentIndex w)).

Definition fill_tab (config : ref) (p_i : Z) : M unit :=
  '(k, _) ← progs_getitem p_i;
  c ← deref config;
  update_prog k (fill_misc c);;
  update_prog k (fill_pads c);;
  update_prog k (fill_knobs c).

Definition get_tab_programme (config : ref) (p_i : Z) : M ref :=
  '(_, prog) ← progs_getitem p_i;
  add_values config {[ "programme" := p_i + 1 ]};;
  add_values config (values (misc prog));;
  add_values config (values (pads_group_box prog));;
  add_values config (values (knobs_group_box prog));;
  mret config.

Definition get_programme (p_i : Z) : M ref := λ w,
  let '(m', result) := midi_get_programme p_i (midi w) in
  let w1 := emit (EvGetProgramme p_i) (set_midi m' w) in
  match result with
  | Ok c => (set_heap (heap w1 ++ [c]) w1, Ok (length (heap w1)))
  | Raise e => (w1, Raise e)
  end.

Definition send_midi_message (message : list Z) : M unit := λ w,
  let '(m', result) := midi_send_midi_message message (midi w) in
  (emit (EvSend message) (set_midi m' w), result).

Definition get_all_programmes : M (list ref) :=
  for_each (range 0 8) (λ p_i,
    config ← get_programme (p_i + 1);
    fill_tab config p_i;;
    mret config).


Definition get_ram : M ref :=
  p_i ← get_active_tab_index;
  config ← get_programme 0;
  fill_tab config p_i;;
  mret config.

Definition copy_to (p_to : Z) : M unit :=
  p_from ← get_active_tab_index;
  config ← Config_new;
  conf ← get_tab_programme config p_from;
  pad_channel ← getattr conf "pad_channel";
  setattr conf "pad_channel" (pad_channel + 1);;
  key_channel ← getattr conf "key_channel";
  setattr conf "key_channel" (key_channel + 1);;
  fill_tab conf (p_to - 1).

Definition send_programme (p_i : Z) : M unit :=
  config ← Config_new;
  message ← get_tab_programme config p_i;
  bytes ← Config_serialize message;
  send_midi_message bytes.




Definition load_mpkminiplus (filepath : string) : M unit :=
  tell (EvPrint ["Loading"; filepath]);;
  data ← open_rb filepath;
  let conf := int_of_byte <$> data in
  config ← Config_new;
  Config_parse_config config conf;;
  p_i ← get_active_tab_index;
  fill_tab config p_i.

Definition save_mpkminiplus (filepath : string) : M unit :=
  tell (EvPrint ["Saving"; filepath]);;
  config ← Config_new;
  p_i ← get_active_tab_index;
  conf ← get_tab_programme config p_i;
  open_wb filepath;;
  bytes ← Config_serialize conf;
  for_each bytes (f_write filepath);;
  mret tt.

(** [filename] is the pair (path, selected filter) returned by the file
    dialog; a pair is never empty, so [if filename:] always holds. *)
Definition file_open (filename : string * string) : M unit :=
  if endswith filename.1 ".mpkminiplus" then load_mpkminiplus filename.1
  else tell (EvPrint ["Unrecognized filetype"]).

Definition file_save_as (filename : string * string) : M unit :=
  if endswith filename.1 ".mpkminiplus" then save_mpkminiplus filename.1
  else tell (EvPrint ["Unrecognized filetype"]).

End MainWindow.

(** What [get_tab_programme] leaves in a config that held [c0]: the slot,
    then the values of the three groups, later entries winning. *)
Definition tab_config `{!WidgetGroup MiscW, !WidgetGroup PadsW, !WidgetGroup KnobsW}
    (c0 : Config) (p_i : Z) (prog : @Prog MiscW PadsW KnobsW) : Config :=
  values (knobs_group_box prog) ∪ (values (pads_group_box prog) ∪
    (values (misc prog) ∪ ({[ "programme" := p_i + 1 ]} ∪ c0))).

(** What [fill_tab] does to the tab it is pointed at. *)
Definition fill_prog `{!WidgetGroup MiscW, !WidgetGroup PadsW, !WidgetGroup KnobsW}
    (c : Config) (prog : @Prog MiscW PadsW KnobsW) : Prog :=
  fill_knobs c (fill_pads c (fill_misc c prog)).

(** The events a method adds to the log of [w]. *)
Definition new_events {Midi MiscW PadsW KnobsW A}
    (w : @World Midi MiscW PadsW KnobsW) (r : @World Midi MiscW PadsW KnobsW * A)
  : list event :=
  drop (length (log w)) (log r.1).


(** Number of [Config()] calls among some events. *)
Definition is_config (e : event) : bool :=
  match e with EvConfig => true | _ => false end.

Definition configs_made (evs : list event) : nat :=
  length (List.filter is_config evs).

(** Number of Retry answers and of connection attempts among some
    events. *)
Definition is_retry (e : event) : bool :=
  match e with EvDialog ButtonRetry => true | _ => false end.

Definition is_attempt (e : event) : bool :=
  match e with EvConnect _ => true | _ => false end.

Definition retries (evs : list event) : nat :=
  length (List.filter is_retry evs).

Definition attempts (evs : list event) : nat :=
  length (List.filter is_attempt evs).

(** The shape of a run of the popup: each Retry is followed at once by
    one connection attempt, and a Close is the last thing that happens. *)
Inductive retry_trace : list event → Prop :=
| trace_end : retry_trace []
| trace_close : retry_trace [EvDialog ButtonClose]
| trace_retry ok evs :
    retry_trace evs →
    retry_trace (EvDialog ButtonRetry :: EvConnect ok :: evs).

Section Callbacks.

Context {Midi MiscW PadsW KnobsW : Type}.
Context `{!ConfigClass, !MidiInterface Midi}.
Context `{!WidgetGroup MiscW, !WidgetGroup PadsW, !WidgetGroup KnobsW}.


(** Two worlds that differ at most in the [Config] objects on the heap. *)
Definition same_window (w1 w2 : @World Midi MiscW PadsW KnobsW) : Prop :=
  midi w1 = midi w2 ∧ progs w1 = progs w2 ∧
  currentIndex w1 = currentIndex w2 ∧ files w1 = files w2 ∧ log w1 = log w2.

(** Both runs return, or both raise the same exception. *)
Definition same_outcome {A B} (r1 : res A) (r2 : res B) : Prop :=
  match r1, r2 with
  | Ok _, Ok _ => True
  | Raise e1, Raise e2 => e1 = e2
  | _, _ => False
  end.

(** A method keeps its configurations to itself: what it does to the
    window, the files and the log, and how it ends, do not depend on the
    [Config] objects it finds on the heap; it leaves those objects as
    they are; and it calls [Config()] between [lo] and [hi] times. *)
Definition keeps_to_itself {A} (lo hi : nat)
    (op : M (Midi:=Midi) (MiscW:=MiscW) (PadsW:=PadsW) (KnobsW:=KnobsW) A) : Prop :=
  (∀ w1 w2, same_window w1 w2 →
     same_window (op w1).1 (op w2).1 ∧ same_outcome (op w1).2 (op w2).2) ∧
  (∀ w, heap w `prefix_of` heap (op w).1) ∧
  (∀ w, ∃ evs, log (op w).1 = log w ++ evs ∧
               (lo ≤ configs_made evs ≤ hi)%nat).

(** The configurations a device hands out for the slots asked in turn,
    up to the first request that fails. *)
Fixpoint device_replies (m : Midi) (slots : list Z) : list Config :=
  match slots with
  | [] => []
  | slot :: rest =>
      match midi_get_programme slot m with
      | (m', Ok c) => c :: device_replies m' rest
      | (_, Raise _) => []
      end
  end.


End Callbacks.

(** What the loop [for b in bytes: f.write(...)] does to the file system,
    and how it ends. *)
Fixpoint write_each (filepath : string) (bs : list Z)
    (fs : gmap string (list byte)) : gmap string (list byte) * res (list unit) :=
  match bs with
  | [] => (fs, Ok [])
  | b :: rest =>
      match to_bytes b with
      | Some x =>
          match write_each filepath rest
                  (alter (λ data, data ++ [x]) filepath fs) with
          | (fs', Ok units) => (fs', Ok (tt :: units))
          | (fs', Raise e) => (fs', Raise e)
          end
      | None => (fs, Raise OverflowError)
      end
  end.

(** ** The codec *)

(** Modelled from the spec: the payload layout of [core.config] (absent).
    The specification fixes its shape: the slot byte, the two channel
    bytes, one record per pad, one record per knob, the block of
    miscellaneous settings, each field with a legal domain; the literal
    table is left open, so the records are parameters. *)
Record field := {
  fname : string;
  lo : Z;
  hi : Z;
}.

(** A knob binding: control-change number and output range. *)
Record knob := {
  knob_cc : string;
  knob_min : string;
  knob_max : string;
}.

(** The three open parts of the table, in wire order. *)
Class PayloadTable := {
  pad_records : list (list field);
  knob_records : list knob;
  misc_block : list field;
}.

Section Codec.

Context `{!PayloadTable}.

Definition header : list field :=
  [ {| fname := "programme"; lo := 0; hi := 8 |};
    {| fname := "pad_channel"; lo := 1; hi := 16 |};
    {| fname := "key_channel"; lo := 1; hi := 16 |} ].

Definition knob_fields (k : knob) : list field :=
  [ {| fname := knob_cc k; lo := 0; hi := 127 |};
    {| fname := knob_min k; lo := 0; hi := 127 |};
    {| fname := knob_max k; lo := 0; hi := 127 |} ].

Definition layout : list field :=
  header ++ concat pad_records ++ (knob_records ≫= knob_fields) ++ misc_block.

Definition in_domain (c : Config) (f : field) : bool :=
  match c !! fname f with
  | Some v => bool_decide (lo f ≤ v ≤ hi f)
  | None => false
  end.

Definition knob_ordered (c : Config) (k : knob) : bool :=
  match c !! knob_min k, c !! knob_max k with
  | Some a, Some b => bool_decide (a ≤ b)
  | _, _ => false
  end.

(** Every field in its domain, every knob range ordered. *)
Definition fields_ok (c : Config) : bool :=
  forallb (in_domain c) layout && forallb (knob_ordered c) knob_records.

(** Modelled from the spec: [is_valid()], every invariant of the data
    model; the configuration has the fields of the layout and no other. *)
Definition is_valid (c : Config) : bool :=
  bool_decide (dom c = list_to_set (fname <$> layout)) && fields_ok c.

(** Modelled from the spec: [encode], the fields in layout order. *)
Definition encode (c : Config) : res (list Z) :=
  match mapM (λ f, c !! fname f) layout with
  | Some bs => Ok bs
  | None => Raise AttributeError
  end.

(** Modelled from the spec: [decode], which fails with [MalformedInput]
    when the length is not that of the layout or a value is outside its
    domain, and leaves the target as it was in that case. *)
Definition decode (bs : list Z) (target : Config) : Config * res unit :=
  let c := list_to_map (zip (fname <$> layout) bs) : Config in
  if bool_decide (length bs = length layout) && fields_ok c
  then (c ∪ target, Ok tt)
  else (target, Raise MalformedInput).

(** A fresh configuration: every field of the layout at zero. *)
Definition zero_config : Config :=
  list_to_map ((λ f, (fname f, 0)) <$> layout).


Definition layout_codec : ConfigClass :=
  {| Config_init := zero_config; serialize := encode; parse_config := decode |}.

End Codec.

(** ** A small instance, used to run the definitions *)

Module Fixture.

(** A group of controls that shows the fields it owns. *)
Record panel := Panel { shown : gmap string Z }.

Definition panel_fill (c : Config) (p : panel) : panel :=
  Panel (map_imap (λ name old, Some (default old (c !! name))) (shown p)).

#[export] Instance panel_group : WidgetGroup panel :=
  {| values := shown; fill := panel_fill |}.

(** A device with the programmes it stores, slot 0 first. *)
Record device := Device { plugged : bool; memory : list Config }.

Definition device_get (slot : Z) (d : device) : device * res Config :=
  match py_index (memory d) slot with
  | Some c => (d, if plugged d then Ok c else Raise (Raised "NotConnected"))
  | None => (d, Raise (Raised "Timeout"))
  end.

Definition device_send (message : list Z) (d : device) : device * res unit :=
  (d, if plugged d then Ok tt else Raise (Raised "NotConnected")).

#[export] Instance device_midi : MidiInterface device :=
  {| connected := plugged; midi_get_programme := device_get;
     midi_send_midi_message := device_send |}.

(** Two pads, one knob, one miscellaneous setting. *)
#[export] Instance table : PayloadTable :=
  {| pad_records :=
       [ [ {| fname := "pad_1_note"; lo := 0; hi := 127 |} ];
         [ {| fname := "pad_2_note"; lo := 0; hi := 127 |} ] ];
     knob_records :=
       [ {| knob_cc := "knob_1_cc"; knob_min := "knob_1_min";
            knob_max := "knob_1_max" |} ];
     misc_block := [ {| fname := "octave"; lo := 0; hi := 8 |} ] |}.

#[export] Instance codec : ConfigClass := layout_codec.

Definition tab (channel note : Z) : Prog :=
  {| misc := Panel {[ "pad_channel" := channel; "key_channel" := channel; "octave" := 4 ]};
     pads_group_box := Panel {[ "pad_1_note" := note; "pad_2_note" := note + 1 ]};
     knobs_group_box := Panel {[ "knob_1_cc" := 7; "knob_1_min" := 0; "knob_1_max" := 127 ]} |}.

Definition stored (slot : Z) : Config :=
  {[ "programme" := slot; "pad_channel" := 10; "key_channel" := 1; "octave" := 2;
     "pad_1_note" := 36 + slot; "pad_2_note" := 37 + slot;
     "knob_1_cc" := 70 + slot; "knob_1_min" := 0; "knob_1_max" := 100 ]}.

Definition akai : device := Device true (stored <$> range 0 9).

(** Eight tabs, the third one active, nothing on disk. *)
Definition world : World :=
  {| midi := akai;
     progs := (λ i, tab (i + 1) (40 + 2 * i)) <$> range 0 8;
     currentIndex := 2;
     heap := [];
     files := ∅;
     log := [] |}.

(** What tab 2 of [world] serializes to. *)
Definition payload : list Z := [3; 3; 3; 44; 45; 7; 0; 127; 4].

(** The same window with a file of two bytes on disk. *)
Definition damaged : World :=
  set_files {[ "short.mpkminiplus" := ["001"; "002"]%byte ]} world.

(** The same window before the controller is plugged in. *)
Definition unplugged : device := Device false [].
Definition offline : World := set_midi unplugged world.

(** A window whose active index is past the last tab. *)
Definition astray : World := set_currentIndex 9 world.

(** A single tab whose pads show notes that are no bytes. *)
Definition loud : World := set_progs [tab 3 300] (set_currentIndex 0 world).

(** A codec that refuses everything, and a tab without any control. *)
Definition refusing : ConfigClass :=
  {| Config_init := ∅;
     serialize := λ _, Raise (Raised "InvalidConfiguration");
     parse_config := λ _ c, (c, Raise MalformedInput) |}.

Definition bare : Prog :=
  {| misc := Panel ∅; pads_group_box := Panel ∅; knobs_group_box := Panel ∅ |}.

Definition blank : World := set_progs [bare] (set_currentIndex 0 world).

(** A device that answers for slots 0, 1 and 2 only. *)
Definition flaky : device := Device true (stored <$> range 0 3).
Definition fading : World := set_midi flaky world.


End Fixture.

(** * Properties *)

(** ** Built-ins *)

Lemma py_pos_lt {A} (l : list A) i k : py_pos l i = Some k → (k < length l)%nat.
Proof.
  unfold py_pos. repeat case_bool_decide; intros [= <-]; lia.
Qed.

Lemma py_pos_nonneg {A} (l : list A) i :
  0 ≤ i < Z.of_nat (length l) → py_pos l i = Some (Z.to_nat i).
Proof. intros Hi. unfold py_pos. by rewrite bool_decide_true. Qed.

Lemma py_pos_lookup {A} (l : list A) i x :
  0 ≤ i → l !! Z.to_nat i = Some x → py_pos l i = Some (Z.to_nat i).
Proof.
  intros Hi Hx. apply py_pos_nonneg. apply lookup_lt_Some in Hx. lia.
Qed.

Lemma to_bytes_int_of_byte b : to_bytes (int_of_byte b) = Some b.
Proof.
  unfold to_bytes, int_of_byte. rewrite bool_decide_true by lia.
  rewrite N2Z.id. apply Byte.of_to_N.
Qed.

Lemma to_bytes_Some b x : to_bytes b = Some x → int_of_byte x = b.
Proof.
  unfold to_bytes, int_of_byte. case_bool_decide; [|done].
  intros Hx. apply Byte.to_of_N in Hx. rewrite Hx. lia.
Qed.

Lemma to_bytes_range b : 0 ≤ b < 256 → is_Some (to_bytes b).
Proof.
  intros Hb. unfold to_bytes. rewrite bool_decide_true by lia.
  destruct (Byte.of_N (Z.to_N b)) eqn:E; [eauto|].
  apply Byte.of_N_None_iff in E. lia.
Qed.

Lemma int_of_byte_range x : 0 ≤ int_of_byte x < 256.
Proof.
  unfold int_of_byte. pose proof (Byte.to_N_bounded x). lia.
Qed.

(** ** Objects on the heap *)

Lemma heap_last_lookup (h : list Config) c : (h ++ [c]) !!! length h = c.
Proof.
  apply list_lookup_total_correct. rewrite lookup_app_r by lia.
  by rewrite Nat.sub_diag.
Qed.

Lemma heap_last_alter (f : Config → Config) (h : list Config) c :
  alter f (length h) (h ++ [c]) = h ++ [f c].
Proof.
  rewrite alter_app_r_alt by lia. by rewrite Nat.sub_diag.
Qed.

Lemma heap_last_insert (h : list Config) c c' :
  <[length h := c']> (h ++ [c]) = h ++ [c'].
Proof.
  rewrite insert_app_r_alt by lia. by rewrite Nat.sub_diag.
Qed.

(** ** Closed forms of the helpers *)

(** Unfold the state transformers a method is built from. *)
Ltac step_M :=
  unfold mbind, M_bind, mret, M_ret, raise, tell, deref, add_values,
    getattr, setattr, update_prog, Config_new, Config_serialize,
    Config_parse_config, get_active_tab_index, open_wb, send_midi_message;
  simpl.

Section WindowFacts.

Context {Midi MiscW PadsW KnobsW : Type}.
Context `{!ConfigClass, !MidiInterface Midi}.
Context `{!WidgetGroup MiscW, !WidgetGroup PadsW, !WidgetGroup KnobsW}.

Local Abbreviation World := (@World Midi MiscW PadsW KnobsW).
Local Abbreviation Prog := (@Prog MiscW PadsW KnobsW).
Implicit Types (w : World) (prog : Prog) (h : list Config).

Lemma progs_getitem_run p_i w k :
  py_pos (progs w) p_i = Some k →
  ∃ prog, progs w !! k = Some prog ∧ progs_getitem p_i w = (w, Ok (k, prog)).
Proof.
  intros Hk. destruct (lookup_lt_is_Some_2 (progs w) k) as [prog Hp].
  { by eapply py_pos_lt. }
  exists prog. split; [done|]. unfold progs_getitem. by rewrite Hk, Hp.
Qed.

Lemma progs_getitem_fail p_i w :
  py_pos (progs w) p_i = None → progs_getitem p_i w = (w, Raise IndexError).
Proof. intros Hk. unfold progs_getitem. by rewrite Hk. Qed.

Lemma fill_tab_run r p_i w k :
  py_pos (progs w) p_i = Some k →
  fill_tab r p_i w =
    (set_progs (alter (fill_prog (heap w !!! r)) k (progs w)) w, Ok tt).
Proof.
  intros Hk. destruct (progs_getitem_run _ _ _ Hk) as (prog & _ & Hrun).
  unfold fill_tab, mbind, M_bind. rewrite Hrun. step_M.
  unfold set_progs. simpl. rewrite !list_alter_alter_eq. done.
Qed.

Lemma fill_tab_fail r p_i w :
  py_pos (progs w) p_i = None → fill_tab r p_i w = (w, Raise IndexError).
Proof.
  intros Hk. unfold fill_tab, mbind, M_bind. by rewrite progs_getitem_fail.
Qed.

Lemma get_tab_programme_run h c0 p_i w k prog :
  heap w = h ++ [c0] →
  py_pos (progs w) p_i = Some k →
  progs w !! k = Some prog →
  get_tab_programme (length h) p_i w =
    (set_heap (h ++ [tab_config c0 p_i prog]) w, Ok (length h)).
Proof.
  intros Hh Hk Hp. unfold get_tab_programme, mbind, M_bind, progs_getitem.
  rewrite Hk, Hp. step_M. rewrite Hh. rewrite !heap_last_alter. done.
Qed.

Lemma get_tab_programme_fail r p_i w :
  py_pos (progs w) p_i = None →
  get_tab_programme r p_i w = (w, Raise IndexError).
Proof.
  intros Hk. unfold get_tab_programme, mbind, M_bind.
  by rewrite progs_getitem_fail.
Qed.

(** A tab addressed from the front. *)
Lemma tab_pos p_i w prog :
  0 ≤ p_i → progs w !! Z.to_nat p_i = Some prog →
  py_pos (progs w) p_i = Some (Z.to_nat p_i).
Proof. intros. by eapply py_pos_lookup. Qed.

(** ** Closed forms of the operations, on the path without exception *)

Lemma send_programme_run p_i w prog bs :
  0 ≤ p_i → progs w !! Z.to_nat p_i = Some prog →
  serialize (tab_config Config_init p_i prog) = Ok bs →
  send_programme p_i w =
    (emit (EvSend bs)
       (set_midi (midi_send_midi_message bs (midi w)).1
          (set_heap (heap w ++ [tab_config Config_init p_i prog])
             (emit EvConfig w))),
     (midi_send_midi_message bs (midi w)).2).
Proof.
  intros Hi Hp Hs. pose proof (tab_pos _ _ _ Hi Hp) as Hk.
  unfold send_programme. step_M.
  erewrite get_tab_programme_run; [|done|done|done].
  step_M. rewrite heap_last_lookup, Hs.
  by destruct (midi_send_midi_message bs (midi w)).
Qed.


Lemma copy_to_run p_to w prog target pad key :
  let c := tab_config Config_init (currentIndex w) prog in
  0 ≤ currentIndex w → progs w !! Z.to_nat (currentIndex w) = Some prog →
  c !! "pad_channel" = Some pad →
  c !! "key_channel" = Some key →
  1 ≤ p_to → progs w !! Z.to_nat (p_to - 1) = Some target →
  let conf := <["key_channel" := key + 1]> (<["pad_channel" := pad + 1]> c) in
  copy_to p_to w =
    (set_progs (alter (fill_prog conf) (Z.to_nat (p_to - 1)) (progs w))
       (set_heap (heap w ++ [conf]) (emit EvConfig w)),
     Ok tt).
Proof.
  intros c Hi Hp Hpad Hkey Hto Ht conf.
  pose proof (tab_pos _ _ _ Hi Hp) as Hk.
  assert (py_pos (progs w) (p_to - 1) = Some (Z.to_nat (p_to - 1))) as Hk'.
  { eapply tab_pos; [lia|done]. }
  unfold copy_to. step_M.
  erewrite get_tab_programme_run; [|done|done|done].
  step_M. rewrite heap_last_lookup. fold c. rewrite Hpad. simpl.
  rewrite heap_last_alter, heap_last_lookup.
  rewrite lookup_insert_ne by done. rewrite Hkey. simpl.
  rewrite heap_last_alter.
  erewrite fill_tab_run by done. simpl. by rewrite heap_last_lookup.
Qed.

End WindowFacts.

(** ** Files *)

Section FileFacts.

Context {Midi MiscW PadsW KnobsW : Type}.
Context `{!ConfigClass, !MidiInterface Midi}.
Context `{!WidgetGroup MiscW, !WidgetGroup PadsW, !WidgetGroup KnobsW}.

Local Abbreviation World := (@World Midi MiscW PadsW KnobsW).
Local Abbreviation Prog := (@Prog MiscW PadsW KnobsW).
Implicit Types (w : World) (prog : Prog) (h : list Config).

Lemma set_files_twice f f' w : set_files f (set_files f' w) = set_files f w.
Proof. done. Qed.

(** Bytes in range are written one after the other. *)
Lemma write_all filepath bs : ∀ w acc data,
  files w !! filepath = Some acc →
  mapM to_bytes bs = Some data →
  ∃ units,
    for_each bs (f_write filepath) w =
      (set_files (<[filepath := acc ++ data]> (files w)) w, Ok units).
Proof.
  induction bs as [|b bs IH]; intros w acc data Hacc Hdata.
  - injection Hdata as <-. exists []. simpl. unfold mret, M_ret.
    rewrite app_nil_r, insert_id by done. by destruct w.
  - simpl in Hdata. destruct (to_bytes b) as [x|] eqn:Hb; [|done].
    simpl in Hdata. destruct (mapM to_bytes bs) as [data'|] eqn:Hbs; [|done].
    injection Hdata as <-.
    destruct (IH (set_files (alter (λ d, d ++ [x]) filepath (files w)) w)
                 (acc ++ [x]) data') as [units Hrun]; [|done|].
    { simpl. by rewrite lookup_alter_eq, Hacc. }
    exists (tt :: units). simpl. unfold mbind, M_bind at 1.
    unfold f_write at 1. rewrite Hb. unfold mbind, M_bind. rewrite Hrun.
    unfold mret, M_ret. rewrite set_files_twice. simpl.
    f_equal. f_equal. rewrite <- (assoc_L (++)). simpl.
    apply map_eq. intros k. destruct (decide (k = filepath)) as [->|].
    + by rewrite !lookup_insert_eq.
    + by rewrite !lookup_insert_ne, lookup_alter_ne.
Qed.

Lemma bytes_in_range bs :
  Forall (λ b, 0 ≤ b < 256) bs →
  ∃ data, mapM to_bytes bs = Some data ∧ int_of_byte <$> data = bs.
Proof.
  induction 1 as [|b bs Hb _ (data & Hdata & Hint)].
  - by exists [].
  - destruct (to_bytes_range b Hb) as [x Hx]. exists (x :: data).
    split; [simpl; by rewrite Hx, Hdata|].
    by rewrite fmap_cons, (to_bytes_Some _ _ Hx), Hint.
Qed.

Lemma save_mpkminiplus_run filepath w prog bs data :
  0 ≤ currentIndex w → progs w !! Z.to_nat (currentIndex w) = Some prog →
  serialize (tab_config Config_init (currentIndex w) prog) = Ok bs →
  mapM to_bytes bs = Some data →
  save_mpkminiplus filepath w =
    (set_files (<[filepath := data]> (files w))
       (emit (EvOpen filepath true)
          (set_heap (heap w ++ [tab_config Config_init (currentIndex w) prog])
             (emit EvConfig (emit (EvPrint ["Saving"; filepath]) w)))),
     Ok tt).
Proof.
  intros Hi Hp Hs Hdata. pose proof (tab_pos _ _ _ Hi Hp) as Hk.
  unfold save_mpkminiplus. step_M.
  erewrite get_tab_programme_run; [|done|done|done].
  step_M. rewrite heap_last_lookup, Hs.
  match goal with |- context [for_each bs _ ?w1] =>
    destruct (write_all filepath bs w1 [] data) as [units Hrun]; [|done|]
  end.
  { simpl. by rewrite lookup_insert_eq. }
  rewrite Hrun. simpl. by rewrite insert_insert_eq.
Qed.

Lemma load_mpkminiplus_run filepath w data c' result :
  files w !! filepath = Some data →
  parse_config (int_of_byte <$> data) Config_init = (c', result) →
  load_mpkminiplus filepath w =
    let w1 := set_heap (heap w ++ [c'])
                (emit EvConfig (emit (EvOpen filepath false)
                   (emit (EvPrint ["Loading"; filepath]) w))) in
    match result with
    | Raise e => (w1, Raise e)
    | Ok _ =>
        match py_pos (progs w) (currentIndex w) with
        | Some k => (set_progs (alter (fill_prog c') k (progs w)) w1, Ok tt)
        | None => (w1, Raise IndexError)
        end
    end.
Proof.
  intros Hdata Hparse. unfold load_mpkminiplus. step_M.
  unfold open_rb. simpl. rewrite Hdata. step_M.
  rewrite heap_last_lookup, Hparse, heap_last_insert.
  destruct result as [[]|e]; [|done].
  destruct (py_pos (progs w) (currentIndex w)) as [k|] eqn:Hk.
  - erewrite fill_tab_run by done. simpl. by rewrite heap_last_lookup.
  - by rewrite fill_tab_fail.
Qed.

Lemma load_mpkminiplus_missing filepath w :
  files w !! filepath = None →
  load_mpkminiplus filepath w =
    (emit (EvOpen filepath false) (emit (EvPrint ["Loading"; filepath]) w),
     Raise FileNotFoundError).
Proof.
  intros Hdata. unfold load_mpkminiplus. step_M.
  unfold open_rb. simpl. by rewrite Hdata.
Qed.

End FileFacts.

(** ** The codec *)

Section CodecFacts.

Context `{!PayloadTable}.

(** Reading the fields of [c] and rebuilding a dictionary from them gives
    back [c] on these fields and nothing elsewhere. *)
Lemma rebuild_lookup (c : Config) (fs : list field) (bs : list Z) :
  Forall2 (λ f v, c !! fname f = Some v) fs bs →
  ∀ name,
    (list_to_map (zip (fname <$> fs) bs) : Config) !! name =
      if decide (name ∈ fname <$> fs) then c !! name else None.
Proof.
  induction 1 as [|f v fs bs Hf _ IH]; intros name.
  - by rewrite decide_False by apply not_elem_of_nil.
  - rewrite fmap_cons. simpl. destruct (decide (name = fname f)) as [->|Hne].
    + rewrite lookup_insert_eq, decide_True by apply list_elem_of_here. done.
    + rewrite lookup_insert_ne by done. rewrite IH.
      destruct (decide (name ∈ fname <$> fs)) as [Hin|Hout].
      * by rewrite decide_True by by apply list_elem_of_further.
      * rewrite decide_False; [done|].
        intros [?|?]%elem_of_cons; done.
Qed.

Lemma valid_fields (c : Config) :
  is_valid c = true →
  dom c = list_to_set (fname <$> layout) ∧ fields_ok c = true.
Proof.
  unfold is_valid. intros [Hdom Hok]%andb_true_iff.
  by apply bool_decide_eq_true in Hdom.
Qed.

Lemma valid_encode (c : Config) :
  is_valid c = true →
  ∃ bs, encode c = Ok bs ∧ Forall2 (λ f v, c !! fname f = Some v) layout bs.
Proof.
  intros [_ Hok]%valid_fields. unfold fields_ok in Hok.
  apply andb_true_iff in Hok as [Hdom _].
  rewrite forallb_forall in Hdom.
  destruct (mapM (λ f, c !! fname f) layout) as [bs|] eqn:Hbs.
  - exists bs. unfold encode. rewrite Hbs. split; [done|].
    by apply mapM_Some_1.
  - apply mapM_None, Exists_exists in Hbs as (f & Hf & Hnone).
    apply list_elem_of_In, Hdom in Hf.
    unfold in_domain in Hf. by rewrite Hnone in Hf.
Qed.

Lemma rebuild_valid (c : Config) (bs : list Z) :
  dom c = list_to_set (fname <$> layout) →
  Forall2 (λ f v, c !! fname f = Some v) layout bs →
  (list_to_map (zip (fname <$> layout) bs) : Config) = c.
Proof.
  intros Hdom Hbs. apply map_eq. intros name.
  rewrite (rebuild_lookup c) by done. case_decide as Hin; [done|].
  symmetry. apply not_elem_of_dom. rewrite Hdom.
  by rewrite elem_of_list_to_set.
Qed.

Lemma zero_config_absorbed (c : Config) :
  dom c = list_to_set (fname <$> layout) → c ∪ zero_config = c.
Proof.
  intros Hdom. apply map_eq. intros name. rewrite lookup_union.
  destruct (c !! name) as [v|] eqn:Hc.
  - by destruct (zero_config !! name).
  - unfold zero_config. rewrite (not_elem_of_list_to_map_1 _ name); [done|].
    apply not_elem_of_dom in Hc. rewrite Hdom, elem_of_list_to_set in Hc.
    by rewrite <- list_fmap_compose.
Qed.


Lemma valid_roundtrip (c : Config) :
  is_valid c = true →
  ∃ bs, encode c = Ok bs ∧ length bs = length layout ∧
        decode bs zero_config = (c, Ok tt).
Proof.
  intros Hvalid. destruct (valid_encode c Hvalid) as (bs & Henc & Hbs).
  destruct (valid_fields c Hvalid) as [Hdom Hok].
  exists bs. split; [done|]. split.
  { symmetry. by eapply Forall2_length. }
  unfold decode. rewrite (rebuild_valid c bs Hdom Hbs), Hok.
  rewrite bool_decide_true by (symmetry; by eapply Forall2_length).
  simpl. by rewrite zero_config_absorbed.
Qed.

Lemma decode_wrong_length (bs : list Z) (target : Config) :
  length bs ≠ length layout →
  decode bs target = (target, Raise MalformedInput).
Proof. intros Hlen. unfold decode. by rewrite bool_decide_false. Qed.

#[local] Existing Instance layout_codec.

(** C1.  Round trip of the codec: for every configuration [c] that passes
    validation, [serialize] produces a byte list of the length of the
    layout and [parse_config], applied to that list on a fresh [Config()],
    succeeds and reconstructs a configuration equal to [c].  This covers
    every valid configuration assembled from a programme tab. *)
Theorem parse_config_serialize_roundtrip (c : Config) :
  is_valid c = true →
  ∃ bs, serialize c = Ok bs ∧ length bs = length layout ∧
        parse_config bs Config_init = (c, Ok tt).
Proof. apply valid_roundtrip. Qed.

End CodecFacts.

(** ** Saving and loading with the layout codec *)

Section SaveLoad.

Context {Midi MiscW PadsW KnobsW : Type}.
Context `{!PayloadTable, !MidiInterface Midi}.
Context `{!WidgetGroup MiscW, !WidgetGroup PadsW, !WidgetGroup KnobsW}.

#[local] Existing Instance layout_codec.

Local Abbreviation World := (@World Midi MiscW PadsW KnobsW).
Local Abbreviation Prog := (@Prog MiscW PadsW KnobsW).
Implicit Types (w : World) (prog : Prog).



End SaveLoad.

(** ** What the operations send, write and show *)

Section Operations.

Context {Midi MiscW PadsW KnobsW : Type}.
Context `{!ConfigClass, !MidiInterface Midi}.
Context `{!WidgetGroup MiscW, !WidgetGroup PadsW, !WidgetGroup KnobsW}.

Local Abbreviation World := (@World Midi MiscW PadsW KnobsW).
Local Abbreviation Prog := (@Prog MiscW PadsW KnobsW).
Implicit Types (w : World) (prog : Prog).

Lemma new_events_app {A} w (r : World * A) evs :
  log r.1 = log w ++ evs → new_events w r = evs.
Proof. intros Hlog. unfold new_events. rewrite Hlog. apply drop_app_length. Qed.

(** C2.  The file written by [save_mpkminiplus] holds exactly the output
    of [serialize()] for the configuration of the active tab, whenever
    that output is a sequence of bytes: the save succeeds, byte [i] of the
    file is element [i] of the payload, the file has the length of the
    payload (nothing before, nothing after), no other file changes, and
    [send_programme] for the same tab hands the same list to
    [send_midi_message]. *)
Theorem save_writes_payload filepath w prog bs :
  0 ≤ currentIndex w →
  progs w !! Z.to_nat (currentIndex w) = Some prog →
  serialize (tab_config Config_init (currentIndex w) prog) = Ok bs →
  Forall (λ b, 0 ≤ b < 256) bs →
  let saved := save_mpkminiplus filepath w in
  saved.2 = Ok tt ∧
  (∃ data,
     files saved.1 !! filepath = Some data ∧
     length data = length bs ∧
     ∀ i, int_of_byte <$> data !! i = bs !! i) ∧
  (∀ other, other ≠ filepath → files saved.1 !! other = files w !! other) ∧
  new_events w (send_programme (currentIndex w) w) = [EvConfig; EvSend bs].
Proof.
  intros Hi Hp Hs Hbytes saved.
  destruct (bytes_in_range bs Hbytes) as (data & Hdata & Hint).
  unfold saved. erewrite save_mpkminiplus_run by done. simpl.
  split; [done|]. split; [|split].
  - exists data. rewrite lookup_insert_eq. split; [done|].
    rewrite <- Hint. split; [by rewrite length_fmap|].
    intros i. by rewrite list_lookup_fmap.
  - intros other Hne. by rewrite lookup_insert_ne.
  - apply new_events_app. erewrite send_programme_run by done. simpl.
    by rewrite <- (assoc_L (++)).
Qed.

(** C4.  A file that does not decode leaves the window as it was: when
    [parse_config] raises on the bytes of the file, [load_mpkminiplus]
    raises the same exception and no tab, nor the active index, the MIDI
    interface or any file, has changed; [fill_tab] has not run. *)
Theorem load_failure_keeps_tabs filepath w data c' e :
  files w !! filepath = Some data →
  parse_config (int_of_byte <$> data) Config_init = (c', Raise e) →
  let loaded := load_mpkminiplus filepath w in
  loaded.2 = Raise e ∧
  progs loaded.1 = progs w ∧
  currentIndex loaded.1 = currentIndex w ∧
  midi loaded.1 = midi w ∧
  files loaded.1 = files w.
Proof.
  intros Hdata Hparse loaded. unfold loaded.
  by erewrite load_mpkminiplus_run by done.
Qed.

(** C5.  [send_programme] hands to [send_midi_message] exactly
    [serialize()] of the configuration read from tab [p_i], and nothing
    else goes to the device; the slot of that configuration is
    [p_i + 1], the groups of a tab having no value called [programme]. *)
Theorem send_programme_payload p_i w prog bs :
  let c := tab_config Config_init p_i prog in
  0 ≤ p_i →
  progs w !! Z.to_nat p_i = Some prog →
  values (misc prog) !! "programme" = None →
  values (pads_group_box prog) !! "programme" = None →
  values (knobs_group_box prog) !! "programme" = None →
  serialize c = Ok bs →
  let sent := send_programme p_i w in
  new_events w sent = [EvConfig; EvSend bs] ∧
  c !! "programme" = Some (p_i + 1) ∧
  midi sent.1 = (midi_send_midi_message bs (midi w)).1 ∧
  sent.2 = (midi_send_midi_message bs (midi w)).2.
Proof.
  intros c Hi Hp Hm Hpads Hknobs Hs sent. unfold sent.
  erewrite send_programme_run by done. simpl. split; [|split; [|done]].
  - apply new_events_app. simpl. by rewrite <- (assoc_L (++)).
  - unfold c, tab_config.
    rewrite !lookup_union, Hm, Hpads, Hknobs, lookup_singleton_eq.
    by destruct (Config_init !! "programme").
Qed.

(** C9.  [copy_to(p_to)] shows in tab [p_to - 1] the configuration read
    from the active tab, its slot being the active index plus one, with
    [pad_channel] and [key_channel] each one more than the value read; no
    other tab changes, and nothing is asked of or sent to the device. *)
Theorem copy_to_increments_channels p_to w prog target pad key :
  let c := tab_config Config_init (currentIndex w) prog in
  0 ≤ currentIndex w →
  progs w !! Z.to_nat (currentIndex w) = Some prog →
  values (misc prog) !! "programme" = None →
  values (pads_group_box prog) !! "programme" = None →
  values (knobs_group_box prog) !! "programme" = None →
  c !! "pad_channel" = Some pad →
  c !! "key_channel" = Some key →
  1 ≤ p_to →
  progs w !! Z.to_nat (p_to - 1) = Some target →
  let copied := copy_to p_to w in
  ∃ conf,
    copied.2 = Ok tt ∧
    progs copied.1 = <[Z.to_nat (p_to - 1) := fill_prog conf target]> (progs w) ∧
    conf !! "programme" = Some (currentIndex w + 1) ∧
    conf !! "pad_channel" = Some (pad + 1) ∧
    conf !! "key_channel" = Some (key + 1) ∧
    (∀ name, name ≠ "pad_channel" → name ≠ "key_channel" →
             conf !! name = c !! name) ∧
    new_events w copied = [EvConfig] ∧
    midi copied.1 = midi w.
Proof.
  intros c Hi Hp Hm Hpads Hknobs Hpad Hkey Hto Ht copied. unfold copied.
  erewrite copy_to_run by done. simpl.
  eexists. split_and!; [done|..].
  - apply list_eq. intros k.
    destruct (decide (k = Z.to_nat (p_to - 1))) as [->|Hne].
    + rewrite list_lookup_alter_eq, Ht.
      rewrite list_lookup_insert_eq; [done|]. by eapply lookup_lt_Some.
    + by rewrite list_lookup_alter_ne, list_lookup_insert_ne.
  - rewrite !lookup_insert_ne by done. unfold tab_config.
    rewrite !lookup_union, Hm, Hpads, Hknobs, lookup_singleton_eq.
    by destruct (Config_init !! "programme").
  - rewrite lookup_insert_ne by done. by rewrite lookup_insert_eq.
  - by rewrite lookup_insert_eq.
  - intros name Hn1 Hn2. by rewrite !lookup_insert_ne.
  - by apply new_events_app.
  - done.
Qed.

(** C10.  [file_open] and [file_save_as] touch the file system only for a
    path that ends with [.mpkminiplus]: for any other path returned by
    the dialog, the empty path of a cancelled dialog included, they only
    print a message: no file is opened, no file changes, and the tabs,
    the active index and the MIDI interface are as before. *)
Theorem other_paths_touch_nothing (filename : string * string) w :
  endswith filename.1 ".mpkminiplus" = false →
  endswith EmptyString ".mpkminiplus" = false ∧
  ∀ op, op = file_open ∨ op = file_save_as →
    let r := op filename w in
    r.2 = Ok tt ∧
    new_events w r = [EvPrint ["Unrecognized filetype"]] ∧
    files r.1 = files w ∧
    progs r.1 = progs w ∧
    currentIndex r.1 = currentIndex w ∧
    midi r.1 = midi w ∧
    heap r.1 = heap w.
Proof.
  intros Hext. split; [done|].
  intros op [->| ->]; unfold file_open, file_save_as; rewrite Hext; simpl;
    (split; [done|]); (split; [by apply new_events_app|done]).
Qed.

End Operations.

(** ** Configurations stay inside the operation that made them *)

Ltac crunch :=
  repeat first
    [ rewrite heap_last_alter
    | rewrite heap_last_lookup
    | rewrite heap_last_insert
    | progress simpl
    | match goal with
      | |- context [py_pos ?l ?i] => destruct (py_pos l i) eqn:?
      | |- context [?l !! ?k] => destruct (l !! k) eqn:?
      | |- context [serialize ?c] => destruct (serialize c) as [?|?] eqn:?
      | |- context [parse_config ?b ?c] =>
          destruct (parse_config b c) as [? [[]|?]] eqn:?
      | |- context [midi_send_midi_message ?b ?m] =>
          destruct (midi_send_midi_message b m) as [? [[]|?]] eqn:?
      | |- context [midi_get_programme ?s ?m] =>
          destruct (midi_get_programme s m) as [? [?|?]] eqn:?
      | |- context [to_bytes ?b] => destruct (to_bytes b) eqn:?
      end ].

Section Scope.

Context {Midi MiscW PadsW KnobsW : Type}.
Context `{!ConfigClass, !MidiInterface Midi}.
Context `{!WidgetGroup MiscW, !WidgetGroup PadsW, !WidgetGroup KnobsW}.

Local Abbreviation World := (@World Midi MiscW PadsW KnobsW).
Local Abbreviation Prog := (@Prog MiscW PadsW KnobsW).
Local Abbreviation Method := (M (Midi:=Midi) (MiscW:=MiscW) (PadsW:=PadsW) (KnobsW:=KnobsW)).
Local Abbreviation keeps lo hi op :=
  (keeps_to_itself (Midi:=Midi) (MiscW:=MiscW) (PadsW:=PadsW) (KnobsW:=KnobsW)
     lo hi op) (only parsing).
Implicit Types (w : World) (prog : Prog).

Local Arguments lookup : simpl never.
Local Arguments insert : simpl never.
Local Arguments union : simpl never.
Local Arguments singletonM : simpl never.

Ltac open_worlds :=
  unfold keeps_to_itself; split_and!;
  [ intros [] [] (? & ? & ? & ? & ?); simplify_eq/=; unfold same_window
  | intros []
  | intros [] ].

Lemma same_outcome_refl {A} (r : res A) : same_outcome r r.
Proof. by destruct r. Qed.

Ltac close_world :=
  first
    [ done
    | split; [done | apply same_outcome_refl]
    | by apply prefix_app_r
    | eexists; split; [rewrite <- ?app_assoc; reflexivity | cbn; lia] ].





Lemma f_write_keeps filepath b : keeps 0 0 (f_write filepath b).
Proof.
  open_worlds; unfold f_write; crunch;
    first [close_world | by exists []; rewrite app_nil_r].
Qed.

Lemma get_and_fill_keeps slot p_i :
  keeps 0 0
    (config ← get_programme slot; fill_tab config p_i;; mret config).
Proof.
  open_worlds;
    unfold get_programme, fill_tab, progs_getitem; step_M; crunch;
    close_world.
Qed.

Lemma configs_made_app evs1 evs2 :
  configs_made (evs1 ++ evs2) = (configs_made evs1 + configs_made evs2)%nat.
Proof. unfold configs_made. by rewrite List.filter_app, length_app. Qed.

(** A loop of methods that keep to themselves keeps to itself. *)
Lemma for_each_keeps {A} (body : Z → Method A) lo hi l :
  (∀ x, keeps lo hi (body x)) →
  keeps (match l with [] => 0 | _ => lo end) (length l * hi)
    (for_each l body).
Proof.
  intros Hbody. induction l as [|x l (IHa & IHb & IHc)].
  { split_and!; [done|done|]. intros w. exists []. by rewrite app_nil_r. }
  destruct (Hbody x) as (Ha & Hb & Hc). split_and!.
  - intros w1 w2 Hw. specialize (Ha w1 w2 Hw). simpl. unfold mbind, M_bind.
    destruct (body x w1) as [w1' [a1|e1]], (body x w2) as [w2' [a2|e2]];
      simpl in Ha; destruct Ha as [Hw' Hout]; try done.
    specialize (IHa w1' w2' Hw').
    destruct (for_each l body w1') as [w1'' [l1|e1]],
             (for_each l body w2') as [w2'' [l2|e2]]; done.
  - intros w. specialize (Hb w). simpl. unfold mbind, M_bind.
    destruct (body x w) as [w' [a|e]]; [|done].
    specialize (IHb w').
    destruct (for_each l body w') as [w'' [l'|e]]; simpl in *; by etrans.
  - intros w. destruct (Hc w) as (evs & Hlog & Hn).
    simpl. unfold mbind, M_bind.
    destruct (body x w) as [w' [a|e]]; simpl in *.
    + destruct (IHc w') as (evs' & Hlog' & Hn').
      exists (evs ++ evs'). split.
      * destruct (for_each l body w') as [w'' [l'|e]]; simpl in *;
          by rewrite Hlog', Hlog, app_assoc.
      * rewrite configs_made_app. lia.
    + exists evs. split; [done|]. lia.
Qed.




(** The write loop in closed form. *)
Lemma write_loop filepath bs : ∀ w,
  for_each bs (f_write filepath) w =
    (set_files (write_each filepath bs (files w)).1 w,
     (write_each filepath bs (files w)).2).
Proof.
  induction bs as [|b bs IH]; intros w.
  { by destruct w. }
  simpl. unfold mbind, M_bind, f_write at 1.
  destruct (to_bytes b) as [x|]; [|by destruct w].
  rewrite IH. simpl.
  by destruct (write_each filepath bs _) as [fs' [units|e]].
Qed.










End Scope.

(** ** The popup shown while the controller is not found *)

Section Popup.

Context {Midi MiscW PadsW KnobsW : Type}.
Context `{!ConfigClass, !MidiInterface Midi}.
Context `{!WidgetGroup MiscW, !WidgetGroup PadsW, !WidgetGroup KnobsW}.

Local Abbreviation World := (@World Midi MiscW PadsW KnobsW).
Implicit Types (w : World) (script : list (@choice Midi)).

Lemma popup_run script : ∀ w,
  let r := show_popup_controller_not_found script w in
  ∃ evs,
    log r.1 = log w ++ evs ∧
    retry_trace evs ∧
    attempts evs = retries evs ∧
    (r.2 = Returned → connected (midi r.1) = true) ∧
    (r.2 = Waiting → connected (midi r.1) = false) ∧
    (r.2 = Exited ↔ EvDialog ButtonClose ∈ evs) ∧
    progs r.1 = progs w ∧ files r.1 = files w ∧ heap r.1 = heap w.
Proof.
  induction script as [|[|m] script IH]; intros w; simpl;
    destruct (connected (midi w)) eqn:Hc; simpl.
  1-3, 5: exists []; rewrite app_nil_r;
    split_and!; [done|apply trace_end|done..| |done|done|done];
    (split; [done|by intros ?%not_elem_of_nil]).
  - exists [EvDialog ButtonClose].
    split_and!; [done|apply trace_close|done..| |done|done|done].
    split; [intros _; apply list_elem_of_here|done].
  - destruct (IH (emit (EvConnect (connected m))
                    (set_midi m (emit (EvDialog ButtonRetry) w))))
      as (evs & Hlog & Htrace & Hn & Hret & Hwait & Hexit & Hp & Hf & Hh).
    exists (EvDialog ButtonRetry :: EvConnect (connected m) :: evs).
    split_and!; try done.
    + rewrite Hlog. simpl. by rewrite <- !app_assoc.
    + by constructor.
    + unfold attempts, retries in *. simpl. by rewrite Hn.
    + rewrite Hexit. split.
      * intros Hin. by do 2 apply list_elem_of_further.
      * intros [?|[?|?]%elem_of_cons]%elem_of_cons; done.
Qed.

(** C7.  The retry loop is driven by the answers to the dialog.  When
    the interface is connected no dialog is shown.  Otherwise a Close
    ends the process at once; a Retry constructs one new [AkaiMPKPlus]
    and the loop goes on with it.  Over a whole run every Retry is
    followed at once by one construction, so that there are as many
    constructions as Retry answers (one more in [__init__], which starts
    with a construction of its own); a Close is the last thing that
    happens; the loop returns only with a connected interface; the
    process exits exactly when Close was chosen. *)
Theorem one_attempt_per_retry script w m :
  (connected (midi w) = true →
   show_popup_controller_not_found script w = (w, Returned)) ∧
  (connected (midi w) = false →
   show_popup_controller_not_found (Close :: script) w
     = (emit (EvDialog ButtonClose) w, Exited) ∧
   show_popup_controller_not_found (Retry m :: script) w
     = show_popup_controller_not_found script
         (emit (EvConnect (connected m))
            (set_midi m (emit (EvDialog ButtonRetry) w)))) ∧
  (let r := show_popup_controller_not_found script w in
   let evs := new_events w r in
   retry_trace evs ∧
   attempts evs = retries evs ∧
   (r.2 = Returned → connected (midi r.1) = true) ∧
   (r.2 = Waiting → connected (midi r.1) = false) ∧
   (r.2 = Exited ↔ EvDialog ButtonClose ∈ evs)) ∧
  (let r := init_midi m script w in
   let evs := new_events w r in
   attempts evs = S (retries evs) ∧
   (r.2 = Returned → connected (midi r.1) = true) ∧
   (r.2 = Exited ↔ EvDialog ButtonClose ∈ evs)).
Proof.
  split_and!.
  - intros Hc. destruct script; simpl; by rewrite Hc.
  - intros Hc. simpl. by rewrite Hc.
  - destruct (popup_run script w)
      as (evs & Hlog & Htrace & Hn & Hret & Hwait & Hexit & _).
    simpl. by rewrite (new_events_app w _ evs Hlog).
  - unfold init_midi. simpl.
    destruct (connected m) eqn:Hc; simpl.
    + rewrite (new_events_app w _ [EvConnect true]) by done.
      split_and!; [done|done|]. split; [done|].
      intros [?|?%not_elem_of_nil]%elem_of_cons; done.
    + destruct (popup_run script
                  (emit (EvConnect false) (set_midi m w)))
        as (evs & Hlog & Htrace & Hn & Hret & Hwait & Hexit & _).
      rewrite (new_events_app w _ (EvConnect false :: evs)).
      * split_and!; [|done|].
        { unfold attempts, retries in *. simpl. by rewrite Hn. }
        rewrite Hexit. split; [by apply list_elem_of_further|].
        intros [?|?]%elem_of_cons; done.
      * rewrite Hlog. simpl. by rewrite <- app_assoc.
Qed.

End Popup.

(** ** Slots and tabs *)

Section Slots.

Context {Midi MiscW PadsW KnobsW : Type}.
Context `{!ConfigClass, !MidiInterface Midi}.
Context `{!WidgetGroup MiscW, !WidgetGroup PadsW, !WidgetGroup KnobsW}.

Local Abbreviation World := (@World Midi MiscW PadsW KnobsW).
Local Abbreviation Prog := (@Prog MiscW PadsW KnobsW).
Implicit Types (w : World) (prog : Prog).

(** One fetch: ask the device for [slot], show the answer in tab [p_i]. *)
Lemma get_and_fill_run slot p_i w :
  (config ← get_programme slot; fill_tab config p_i;; mret config) w =
    let w1 := emit (EvGetProgramme slot)
                (set_midi (midi_get_programme slot (midi w)).1 w) in
    match (midi_get_programme slot (midi w)).2 with
    | Raise e => (w1, Raise e)
    | Ok c =>
        match py_pos (progs w) p_i with
        | Some k =>
            (set_progs (alter (fill_prog c) k (progs w))
               (set_heap (heap w ++ [c]) w1), Ok (length (heap w)))
        | None => (set_heap (heap w ++ [c]) w1, Raise IndexError)
        end
    end.
Proof.
  unfold get_programme. step_M.
  destruct (midi_get_programme slot (midi w)) as [m' [c|e]]; [|done].
  simpl. destruct (py_pos (progs w) p_i) as [k|] eqn:Hk.
  - erewrite fill_tab_run by done. simpl. by rewrite heap_last_lookup.
  - by rewrite fill_tab_fail.
Qed.


Lemma for_each_cons {A} (body : Z → M A) x l w :
  for_each (x :: l) body w =
    match body x w with
    | (w', Ok a) =>
        match for_each l body w' with
        | (w'', Ok others) => (w'', Ok (a :: others))
        | (w'', Raise e) => (w'', Raise e)
        end
    | (w', Raise e) => (w', Raise e)
    end.
Proof.
  simpl. unfold mbind, M_bind. destruct (body x w) as [w' [a|e]]; [|done].
  by destruct (for_each l body w') as [? [|]].
Qed.




End Slots.

(** ** What each operation leaves alone *)

Section Frame.

Context {Midi MiscW PadsW KnobsW : Type}.
Context `{!ConfigClass, !MidiInterface Midi}.
Context `{!WidgetGroup MiscW, !WidgetGroup PadsW, !WidgetGroup KnobsW}.

Local Abbreviation World := (@World Midi MiscW PadsW KnobsW).
Local Abbreviation Prog := (@Prog MiscW PadsW KnobsW).
Local Abbreviation Method :=
  (M (Midi:=Midi) (MiscW:=MiscW) (PadsW:=PadsW) (KnobsW:=KnobsW)).
Implicit Types (w : World) (prog : Prog).

Local Arguments lookup : simpl never.
Local Arguments insert : simpl never.
Local Arguments union : simpl never.
Local Arguments singletonM : simpl never.












End Frame.

(** ** Tabs that do not exist, tabs counted from the end *)

Section TabIndex.

Context {Midi MiscW PadsW KnobsW : Type}.
Context `{!ConfigClass, !MidiInterface Midi}.
Context `{!WidgetGroup MiscW, !WidgetGroup PadsW, !WidgetGroup KnobsW}.

Local Abbreviation World := (@World Midi MiscW PadsW KnobsW).
Local Abbreviation Prog := (@Prog MiscW PadsW KnobsW).
Implicit Types (w : World) (prog : Prog).

Lemma py_pos_out_of_range {A} (l : list A) i :
  ¬ (- Z.of_nat (length l) ≤ i < Z.of_nat (length l)) → py_pos l i = None.
Proof.
  intros Hi. unfold py_pos. by rewrite !bool_decide_false by lia.
Qed.

Lemma py_pos_from_end {A} (l : list A) i :
  - Z.of_nat (length l) ≤ i < 0 →
  py_pos l i = Some (Z.to_nat (Z.of_nat (length l) + i)).
Proof.
  intros Hi. unfold py_pos.
  by rewrite bool_decide_false, bool_decide_true by lia.
Qed.

(** A tab index outside the tabs makes [send_programme] raise
    [IndexError]: a [Config] has been constructed, but nothing is handed
    to the MIDI interface, which stays as it was. *)
Theorem send_programme_no_such_tab p_i w :
  ¬ (- Z.of_nat (length (progs w)) ≤ p_i < Z.of_nat (length (progs w))) →
  let sent := send_programme p_i w in
  sent.2 = Raise IndexError ∧
  new_events w sent = [EvConfig] ∧
  midi sent.1 = midi w.
Proof.
  intros Hi sent. unfold sent, send_programme. step_M.
  rewrite get_tab_programme_fail by by apply py_pos_out_of_range.
  split; [done|]. split; [by apply new_events_app|done].
Qed.

(** The get operations ask the device first and look for the tab
    afterwards: with no tab at the active index, [get_ram] has already
    exchanged slot 0 with the interface (whose state has moved on) when it
    raises [IndexError], or the interface's own exception; no tab has
    changed. *)
Theorem get_ram_asks_before_looking w :
  ¬ (- Z.of_nat (length (progs w)) ≤ currentIndex w
       < Z.of_nat (length (progs w))) →
  let got := get_ram w in
  new_events w got = [EvGetProgramme 0] ∧
  midi got.1 = (midi_get_programme 0 (midi w)).1 ∧
  progs got.1 = progs w ∧
  got.2 = match (midi_get_programme 0 (midi w)).2 with
          | Ok _ => Raise IndexError
          | Raise e => Raise e
          end.
Proof.
  intros Hi got.
  assert (got = (config ← get_programme 0;
                 fill_tab config (currentIndex w);; mret config) w) as ->
    by done.
  rewrite get_and_fill_run, py_pos_out_of_range by done.
  destruct (midi_get_programme 0 (midi w)) as [m' [c|e]]; simpl;
    (split; [by apply new_events_app|done]).
Qed.

(** [copy_to(0)] addresses tab [-1]: the copy lands in the last tab. *)
Theorem copy_to_zero_fills_last_tab w prog pad key :
  let c := tab_config Config_init (currentIndex w) prog in
  0 ≤ currentIndex w →
  progs w !! Z.to_nat (currentIndex w) = Some prog →
  c !! "pad_channel" = Some pad →
  c !! "key_channel" = Some key →
  let conf := <["key_channel" := key + 1]> (<["pad_channel" := pad + 1]> c) in
  copy_to 0 w =
    (set_progs (alter (fill_prog conf) (length (progs w) - 1)%nat (progs w))
       (set_heap (heap w ++ [conf]) (emit EvConfig w)),
     Ok tt).
Proof.
  intros c Hi Hp Hpad Hkey conf.
  pose proof (tab_pos _ _ _ Hi Hp) as Hk.
  assert (py_pos (progs w) (0 - 1) = Some (length (progs w) - 1)%nat) as Hk'.
  { apply lookup_lt_Some in Hp. rewrite py_pos_from_end by lia.
    f_equal. lia. }
  unfold copy_to. step_M.
  erewrite get_tab_programme_run; [|done|done|done].
  step_M. rewrite heap_last_lookup. fold c. rewrite Hpad. simpl.
  rewrite heap_last_alter, heap_last_lookup.
  rewrite lookup_insert_ne by done. rewrite Hkey. simpl.
  rewrite heap_last_alter.
  erewrite fill_tab_run by done. simpl. by rewrite heap_last_lookup.
Qed.

(** A target outside the tabs makes [copy_to] raise [IndexError] once the
    configuration is built: no tab changes. *)
Theorem copy_to_no_such_target p_to w prog pad key :
  let c := tab_config Config_init (currentIndex w) prog in
  0 ≤ currentIndex w →
  progs w !! Z.to_nat (currentIndex w) = Some prog →
  c !! "pad_channel" = Some pad →
  c !! "key_channel" = Some key →
  ¬ (- Z.of_nat (length (progs w)) ≤ p_to - 1 < Z.of_nat (length (progs w))) →
  (copy_to p_to w).2 = Raise IndexError ∧
  progs (copy_to p_to w).1 = progs w.
Proof.
  intros c Hi Hp Hpad Hkey Hto.
  pose proof (tab_pos _ _ _ Hi Hp) as Hk.
  unfold copy_to. step_M.
  erewrite get_tab_programme_run; [|done|done|done].
  step_M. rewrite heap_last_lookup. fold c. rewrite Hpad. simpl.
  rewrite heap_last_alter, heap_last_lookup.
  rewrite lookup_insert_ne by done. rewrite Hkey. simpl.
  rewrite heap_last_alter.
  by rewrite fill_tab_fail by by apply py_pos_out_of_range.
Qed.

(** Without a [pad_channel] (or, next, a [key_channel]) in the
    configuration read from the active tab, [copy_to] raises
    [AttributeError] and no tab changes. *)
Theorem copy_to_without_channel p_to w prog :
  let c := tab_config Config_init (currentIndex w) prog in
  0 ≤ currentIndex w →
  progs w !! Z.to_nat (currentIndex w) = Some prog →
  c !! "pad_channel" = None ∨ c !! "key_channel" = None →
  (copy_to p_to w).2 = Raise AttributeError ∧
  progs (copy_to p_to w).1 = progs w.
Proof.
  intros c Hi Hp Hnone.
  pose proof (tab_pos _ _ _ Hi Hp) as Hk.
  unfold copy_to. step_M.
  erewrite get_tab_programme_run; [|done|done|done].
  step_M. rewrite heap_last_lookup. fold c.
  destruct (c !! "pad_channel") as [pad|] eqn:Hpad; simpl; [|done].
  destruct Hnone as [?|Hkey]; [done|].
  rewrite heap_last_alter, heap_last_lookup.
  rewrite lookup_insert_ne by done. by rewrite Hkey.
Qed.

(** [get_tab_programme] returns the very object it is given, filled in
    place: the slot first, then the values of [misc], of the pads and of
    the knobs, a later group overriding an earlier one and all of them the
    slot and what the object held before. *)
Theorem get_tab_programme_in_place h c0 p_i w prog name :
  heap w = h ++ [c0] →
  0 ≤ p_i →
  progs w !! Z.to_nat p_i = Some prog →
  let r := get_tab_programme (length h) p_i w in
  r.2 = Ok (length h) ∧
  length (heap r.1) = length (heap w) ∧
  (heap r.1 !!! length h) !! name =
    match values (knobs_group_box prog) !! name with
    | Some v => Some v
    | None =>
        match values (pads_group_box prog) !! name with
        | Some v => Some v
        | None =>
            match values (misc prog) !! name with
            | Some v => Some v
            | None =>
                if decide (name = "programme") then Some (p_i + 1)
                else c0 !! name
            end
        end
    end.
Proof.
  intros Hh Hi Hp r. unfold r.
  erewrite get_tab_programme_run; [|done|by eapply tab_pos|done].
  simpl. split; [done|]. split.
  { by rewrite Hh, !length_app. }
  rewrite heap_last_lookup. unfold tab_config. rewrite !lookup_union.
  case_decide as Hn.
  - subst name. rewrite lookup_singleton_eq.
    by destruct (values (knobs_group_box prog) !! "programme"),
                (values (pads_group_box prog) !! "programme"),
                (values (misc prog) !! "programme"),
                (c0 !! "programme").
  - rewrite lookup_singleton_ne by done.
    by destruct (values (knobs_group_box prog) !! name),
                (values (pads_group_box prog) !! name),
                (values (misc prog) !! name),
                (c0 !! name).
Qed.

End TabIndex.

(** ** Files: what a failed save leaves behind, what a load reads *)

Lemma to_bytes_None b : ¬ (0 ≤ b < 256) → to_bytes b = None.
Proof.
  intros Hb. unfold to_bytes. case_bool_decide; [|done].
  apply Byte.of_N_None_iff. lia.
Qed.

Lemma string_length_app (s1 s2 : string) :
  String.length (s1 +:+ s2) = (String.length s1 + String.length s2)%nat.
Proof. induction s1 as [|a s1 IH]; simpl; [done|]. by rewrite IH. Qed.

Lemma substring_all (s : string) : String.substring 0 (String.length s) s = s.
Proof. induction s as [|a s IH]; simpl; [done|]. by rewrite IH. Qed.

Lemma substring_skip (s1 s2 : string) :
  String.substring (String.length s1) (String.length s2) (s1 +:+ s2) = s2.
Proof. induction s1 as [|a s1 IH]; simpl; [apply substring_all|done]. Qed.

Lemma substring_split (s : string) : ∀ k,
  (k ≤ String.length s)%nat →
  s = String.substring 0 k s +:+ String.substring k (String.length s - k) s.
Proof.
  induction s as [|a s IH]; intros [|k] Hk; simpl in *.
  - done.
  - lia.
  - by rewrite substring_all.
  - change (String a s = String a (String.substring 0 k s
                +:+ String.substring k (String.length s - k) s)).
    by rewrite <- IH by lia.
Qed.

(** Python's [endswith]: the string is some stem followed by the suffix. *)
Lemma endswith_stem (s suffix : string) :
  endswith s suffix = true ↔ ∃ stem, s = stem +:+ suffix.
Proof.
  unfold endswith. rewrite andb_true_iff, Nat.leb_le, String.eqb_eq. split.
  - intros [Hlen Hsub].
    exists (String.substring 0 (String.length s - String.length suffix) s).
    etrans;
      [apply (substring_split s (String.length s - String.length suffix)); lia|].
    f_equal.
    replace (String.length s - (String.length s - String.length suffix))%nat
      with (String.length suffix) by lia.
    exact Hsub.
  - intros [stem ->]. rewrite string_length_app. split; [lia|].
    replace (String.length stem + String.length suffix
             - String.length suffix)%nat
      with (String.length stem) by lia.
    apply substring_skip.
Qed.

Section FileEdges.

Context {Midi MiscW PadsW KnobsW : Type}.
Context `{!ConfigClass, !MidiInterface Midi}.
Context `{!WidgetGroup MiscW, !WidgetGroup PadsW, !WidgetGroup KnobsW}.

Local Abbreviation World := (@World Midi MiscW PadsW KnobsW).
Local Abbreviation Prog := (@Prog MiscW PadsW KnobsW).
Implicit Types (w : World) (prog : Prog).

(** The write loop stops at the first value that is no byte. *)
Lemma write_each_overflow filepath good bad rest : ∀ fs acc data,
  fs !! filepath = Some acc →
  mapM to_bytes good = Some data →
  to_bytes bad = None →
  write_each filepath (good ++ bad :: rest) fs =
    (<[filepath := acc ++ data]> fs, Raise OverflowError).
Proof.
  induction good as [|b good IH]; intros fs acc data Hacc Hdata Hbad.
  - injection Hdata as <-. simpl. rewrite Hbad, app_nil_r.
    by rewrite insert_id.
  - simpl in Hdata. destruct (to_bytes b) as [x|] eqn:Hb; [|done].
    simpl in Hdata. destruct (mapM to_bytes good) as [data'|] eqn:Hg; [|done].
    injection Hdata as <-. simpl. rewrite Hb.
    rewrite (IH _ (acc ++ [x]) data'); [|by rewrite lookup_alter_eq, Hacc|done..].
    f_equal. rewrite <- (assoc_L (++)). simpl.
    apply map_eq. intros k. destruct (decide (k = filepath)) as [->|].
    + by rewrite !lookup_insert_eq.
    + by rewrite !lookup_insert_ne, lookup_alter_ne.
Qed.

(** A value outside 0..255 in what [serialize()] returns makes
    [save_mpkminiplus] raise [OverflowError] part-way: the file then holds
    the bytes that came before that value and nothing else, whatever it
    held before. *)
Theorem save_overflow_leaves_prefix filepath w prog good bad rest :
  0 ≤ currentIndex w →
  progs w !! Z.to_nat (currentIndex w) = Some prog →
  serialize (tab_config Config_init (currentIndex w) prog)
    = Ok (good ++ bad :: rest) →
  Forall (λ b, 0 ≤ b < 256) good →
  ¬ (0 ≤ bad < 256) →
  let saved := save_mpkminiplus filepath w in
  saved.2 = Raise OverflowError ∧
  ∃ data, files saved.1 !! filepath = Some data ∧ int_of_byte <$> data = good.
Proof.
  intros Hi Hp Hs Hgood Hbad saved.
  destruct (bytes_in_range good Hgood) as (data & Hdata & Hint).
  pose proof (tab_pos _ _ _ Hi Hp) as Hk.
  unfold saved, save_mpkminiplus. step_M.
  erewrite get_tab_programme_run; [|done|done|done].
  step_M. rewrite heap_last_lookup, Hs, write_loop. simpl.
  rewrite (write_each_overflow filepath good bad rest _ [] data);
    [|by rewrite lookup_insert_eq|done|by apply to_bytes_None].
  simpl. split; [done|]. exists data. by rewrite lookup_insert_eq.
Qed.

(** The file is opened for writing before [serialize()] is called: when
    [serialize()] raises, the exception goes through and the file is left
    empty, whatever it held before. *)
Theorem save_failure_empties_file filepath w prog e :
  0 ≤ currentIndex w →
  progs w !! Z.to_nat (currentIndex w) = Some prog →
  serialize (tab_config Config_init (currentIndex w) prog) = Raise e →
  let saved := save_mpkminiplus filepath w in
  saved.2 = Raise e ∧
  files saved.1 = <[filepath := []]> (files w).
Proof.
  intros Hi Hp Hs saved. pose proof (tab_pos _ _ _ Hi Hp) as Hk.
  unfold saved, save_mpkminiplus. step_M.
  erewrite get_tab_programme_run; [|done|done|done].
  step_M. by rewrite heap_last_lookup, Hs.
Qed.

(** With no tab at the active index, [save_mpkminiplus] raises
    [IndexError] before it opens the file: no file is created or changed. *)
Theorem save_no_such_tab filepath w :
  ¬ (- Z.of_nat (length (progs w)) ≤ currentIndex w
       < Z.of_nat (length (progs w))) →
  let saved := save_mpkminiplus filepath w in
  saved.2 = Raise IndexError ∧
  files saved.1 = files w ∧
  new_events w saved = [EvPrint ["Saving"; filepath]; EvConfig].
Proof.
  intros Hi saved. unfold saved, save_mpkminiplus. step_M.
  rewrite get_tab_programme_fail by by apply py_pos_out_of_range.
  split_and!; [done|done|]. apply new_events_app. simpl.
  by rewrite <- app_assoc.
Qed.

(** What [load_mpkminiplus] logs starts with the opening of the file. *)
Lemma load_opens filepath w :
  EvOpen filepath false ∈ new_events w (load_mpkminiplus filepath w).
Proof.
  destruct (files w !! filepath) as [data|] eqn:Hdata.
  - destruct (parse_config (int_of_byte <$> data) Config_init)
      as [c' result] eqn:Hparse.
    rewrite (load_mpkminiplus_run filepath w data c' result) by done.
    assert (∀ r : res unit, new_events w
      (set_heap (heap w ++ [c'])
         (emit EvConfig (emit (EvOpen filepath false)
            (emit (EvPrint ["Loading"; filepath]) w))), r)
      = [EvPrint ["Loading"; filepath]; EvOpen filepath false; EvConfig])
      as Hev.
    { intros r. apply new_events_app. simpl. by rewrite <- !app_assoc. }
    destruct result as [[]|e]; simpl.
    + destruct (py_pos (progs w) (currentIndex w)).
      * rewrite (new_events_app w _
          [EvPrint ["Loading"; filepath]; EvOpen filepath false; EvConfig]).
        { apply list_elem_of_further, list_elem_of_here. }
        simpl. by rewrite <- !app_assoc.
      * rewrite Hev. apply list_elem_of_further, list_elem_of_here.
    + rewrite Hev. apply list_elem_of_further, list_elem_of_here.
  - rewrite load_mpkminiplus_missing by done.
    rewrite (new_events_app w _
      [EvPrint ["Loading"; filepath]; EvOpen filepath false]).
    + apply list_elem_of_further, list_elem_of_here.
    + simpl. by rewrite <- !app_assoc.
Qed.

(** [file_open] opens the chosen file exactly when its path is some stem
    followed by [.mpkminiplus] (the comparison is case-sensitive, and the
    stem may be empty). *)
Theorem file_open_reads_suffixed_paths (filename : string * string) w :
  EvOpen filename.1 false ∈ new_events w (file_open filename w)
  ↔ ∃ stem, filename.1 = stem +:+ ".mpkminiplus".
Proof.
  rewrite <- endswith_stem. unfold file_open.
  destruct (endswith filename.1 ".mpkminiplus") eqn:Hext.
  - split; [done|]. intros _. apply load_opens.
  - split; [|done].
    rewrite (new_events_app w _ [EvPrint ["Unrecognized filetype"]]) by done.
    by intros [=]%list_elem_of_singleton.
Qed.

(** Opening a path with the right suffix that does not exist raises
    [FileNotFoundError]; no [Config] has been constructed and no tab has
    changed. *)
Theorem file_open_missing_file (filename : string * string) stem w :
  filename.1 = stem +:+ ".mpkminiplus" →
  files w !! filename.1 = None →
  file_open filename w =
    (emit (EvOpen filename.1 false)
       (emit (EvPrint ["Loading"; filename.1]) w),
     Raise FileNotFoundError).
Proof.
  intros Hstem Hnone. unfold file_open.
  rewrite (proj2 (endswith_stem filename.1 ".mpkminiplus"))
    by by exists stem.
  by apply load_mpkminiplus_missing.
Qed.

(** Whatever the codec: after a save that succeeded, a load of the same
    path gives [parse_config] exactly the integers [serialize()] had
    returned, on a fresh [Config()]; it shows the result in the tab active
    by then when [parse_config] returns and changes no tab when it
    raises. *)
Theorem load_reads_what_save_wrote filepath w prog bs j c' result :
  0 ≤ currentIndex w →
  progs w !! Z.to_nat (currentIndex w) = Some prog →
  serialize (tab_config Config_init (currentIndex w) prog) = Ok bs →
  Forall (λ b, 0 ≤ b < 256) bs →
  0 ≤ j < Z.of_nat (length (progs w)) →
  parse_config bs Config_init = (c', result) →
  let saved := save_mpkminiplus filepath w in
  let loaded := load_mpkminiplus filepath (set_currentIndex j saved.1) in
  loaded.2 = result ∧
  last (heap loaded.1) = Some c' ∧
  progs loaded.1 =
    match result with
    | Ok _ => alter (fill_prog c') (Z.to_nat j) (progs w)
    | Raise _ => progs w
    end.
Proof.
  intros Hi Hp Hs Hbytes Hj Hparse saved loaded.
  destruct (bytes_in_range bs Hbytes) as (data & Hdata & Hint).
  assert (saved = (set_files (<[filepath := data]> (files w))
       (emit (EvOpen filepath true)
          (set_heap (heap w ++ [tab_config Config_init (currentIndex w) prog])
             (emit EvConfig (emit (EvPrint ["Saving"; filepath]) w)))),
     Ok tt)) as Hsaved by by eapply save_mpkminiplus_run.
  unfold loaded.
  erewrite (load_mpkminiplus_run filepath _ data c' result);
    [|rewrite Hsaved; simpl; apply lookup_insert_eq|by rewrite Hint].
  rewrite Hsaved. simpl.
  destruct result as [[]|e]; simpl.
  - rewrite py_pos_nonneg by done. simpl. by rewrite last_snoc.
  - by rewrite last_snoc.
Qed.

End FileEdges.

(** ** The loops over the eight programmes *)

Section Loops.

Context {Midi MiscW PadsW KnobsW : Type}.
Context `{!ConfigClass, !MidiInterface Midi}.
Context `{!WidgetGroup MiscW, !WidgetGroup PadsW, !WidgetGroup KnobsW}.

Local Abbreviation World := (@World Midi MiscW PadsW KnobsW).
Local Abbreviation Prog := (@Prog MiscW PadsW KnobsW).
Implicit Types (w : World) (prog : Prog).




Lemma get_all_partial n : ∀ a w,
  0 ≤ a →
  (Z.to_nat a + n ≤ length (progs w))%nat →
  let cs := device_replies (midi w) (seqZ (a + 1) (Z.of_nat n)) in
  let r := for_each (seqZ a (Z.of_nat n))
             (λ p_i, config ← get_programme (p_i + 1);
                     fill_tab config p_i;; mret config) w in
  (length cs ≤ n)%nat ∧
  (∀ i c, cs !! i = Some c →
     progs r.1 !! (Z.to_nat a + i)%nat
       = fill_prog c <$> progs w !! (Z.to_nat a + i)%nat) ∧
  (∀ j, (j < Z.to_nat a ∨ Z.to_nat a + length cs ≤ j)%nat →
     progs r.1 !! j = progs w !! j) ∧
  (length cs = n →
     ∃ refs, r.2 = Ok refs ∧ length refs = n ∧
       ∀ i c, cs !! i = Some c →
         ∃ ref, refs !! i = Some ref ∧ heap r.1 !! ref = Some c) ∧
  ((length cs < n)%nat → ∃ e, r.2 = Raise e).
Proof.
  induction n as [|n IH]; intros a w Ha Hlen cs r.
  { subst cs r. simpl. split_and!; try done; [|lia]. intros _. by exists []. }
  subst cs r.
  rewrite Nat2Z.inj_succ, (seqZ_cons a), (seqZ_cons (a + 1)) by lia.
  replace (Z.pred (Z.succ (Z.of_nat n))) with (Z.of_nat n) by lia.
  replace (Z.succ a) with (a + 1) by lia.
  replace (Z.succ (a + 1)) with (a + 1 + 1) by lia.
  rewrite for_each_cons, get_and_fill_run. cbn [device_replies].
  destruct (midi_get_programme (a + 1) (midi w)) as [m' [c|e]] eqn:Hget;
    cbn [fst snd].
  2:{ simpl. split_and!; try done; [lia|]. intros _. by exists e. }
  rewrite py_pos_nonneg by lia. cbn [fst snd].
  set (w2 := set_progs _ _).
  destruct (IH (a + 1) w2) as (Hcs & Hshown & Hframe & Hok & Hfail); [lia|..].
  { subst w2. simpl. rewrite length_alter. lia. }
  destruct (for_each_keeps
              (Midi:=Midi) (MiscW:=MiscW) (PadsW:=PadsW) (KnobsW:=KnobsW)
              (λ p_i, config ← get_programme (p_i + 1);
                      fill_tab config p_i;; mret config)
              0 0 (seqZ (a + 1) (Z.of_nat n))
              (λ x, get_and_fill_keeps (x + 1) x)) as (_ & Hheap & _).
  specialize (Hheap w2).
  change (midi w2) with m' in *.
  set (cs' := device_replies m' (seqZ (a + 1 + 1) (Z.of_nat n))) in *.
  assert (∀ j, j ≠ Z.to_nat a → progs w2 !! j = progs w !! j) as Hother.
  { intros j Hj. subst w2. simpl. by rewrite list_lookup_alter_ne. }
  assert (progs w2 !! Z.to_nat a = fill_prog c <$> progs w !! Z.to_nat a)
    as Hhere.
  { subst w2. simpl. apply list_lookup_alter_eq. }
  assert (heap w2 !! length (heap w) = Some c) as Hcell.
  { subst w2. simpl. by rewrite lookup_app_r, Nat.sub_diag. }
  destruct (for_each _ _ w2) as [w3 [refs|e]] eqn:Hloop; cbn [fst snd] in *.
  - split_and!.
    + simpl. lia.
    + intros [|i] c0 Hc0; simpl in Hc0.
      * injection Hc0 as <-. rewrite Nat.add_0_r.
        rewrite Hframe by lia. done.
      * replace (Z.to_nat a + S i)%nat with (Z.to_nat (a + 1) + i)%nat by lia.
        rewrite (Hshown i c0 Hc0). by rewrite Hother by lia.
    + intros j Hj. simpl in Hj. rewrite Hframe by lia.
      apply Hother. lia.
    + intros Hn. simpl in Hn. destruct Hok as (refs' & Hrefs & Hlr & Hcells);
        [lia|]. injection Hrefs as <-.
      exists (length (heap w) :: refs). split_and!; [done|simpl; lia|].
      intros [|i] c0 Hc0; simpl in Hc0.
      * injection Hc0 as <-. exists (length (heap w)). split; [done|].
        by eapply prefix_lookup_Some.
      * by apply Hcells.
    + intros Hn. simpl in Hn. destruct Hfail as [e He]; [lia|done].
  - split_and!.
    + simpl. lia.
    + intros [|i] c0 Hc0; simpl in Hc0.
      * injection Hc0 as <-. rewrite Nat.add_0_r.
        rewrite Hframe by lia. done.
      * replace (Z.to_nat a + S i)%nat with (Z.to_nat (a + 1) + i)%nat by lia.
        rewrite (Hshown i c0 Hc0). by rewrite Hother by lia.
    + intros j Hj. simpl in Hj. rewrite Hframe by lia.
      apply Hother. lia.
    + intros Hn. simpl in Hn. destruct Hok as (refs' & Hrefs & _); [lia|done].
    + intros _. by exists e.
Qed.

(** With eight tabs or more, [get_all_programmes] shows in tabs 0, 1, ...
    what the device answers for slots 1, 2, ... up to the first request
    that fails, and leaves every other tab as it was: a failure part-way
    is raised with the earlier tabs already overwritten.  When all eight
    requests succeed it returns, in slot order, the eight configurations it
    has shown. *)
Theorem get_all_programmes_partial w :
  (8 ≤ length (progs w))%nat →
  let cs := device_replies (midi w) (seqZ 1 8) in
  let r := get_all_programmes w in
  (length cs ≤ 8)%nat ∧
  (∀ i c, cs !! i = Some c → progs r.1 !! i = fill_prog c <$> progs w !! i) ∧
  (∀ j, (length cs ≤ j)%nat → progs r.1 !! j = progs w !! j) ∧
  (length cs = 8%nat →
     ∃ refs, r.2 = Ok refs ∧ length refs = 8%nat ∧
       ∀ i c, cs !! i = Some c →
         ∃ ref, refs !! i = Some ref ∧ heap r.1 !! ref = Some c) ∧
  ((length cs < 8)%nat → ∃ e, r.2 = Raise e).
Proof.
  intros Hlen.
  assert (Z.to_nat 0 + 8 ≤ length (progs w))%nat as Hlen' by (simpl; lia).
  destruct (get_all_partial 8 0 w ltac:(done) Hlen')
    as (Hcs & Hshown & Hframe & Hok & Hfail).
  split_and!; [done|apply Hshown| |done|done].
  intros j Hj. apply Hframe. right. exact Hj.
Qed.

End Loops.

(** ** Runs of the popup *)

Section PopupRuns.

Context {Midi MiscW PadsW KnobsW : Type}.
Context `{!ConfigClass, !MidiInterface Midi}.
Context `{!WidgetGroup MiscW, !WidgetGroup PadsW, !WidgetGroup KnobsW}.

Local Abbreviation World := (@World Midi MiscW PadsW KnobsW).
Implicit Types (w : World) (ms : list Midi).

(** The popup stops at the first attempt that connects: after retries
    that all fail and one that succeeds, the loop returns, the window
    holds the interface of that last attempt, the dialog has been shown
    once per attempt, whatever the user would have answered next is never
    asked, and tabs, files and configurations are untouched. *)
Theorem popup_stops_at_first_connection ms m rest : ∀ w,
  connected (midi w) = false →
  Forall (λ x, connected x = false) ms →
  connected m = true →
  let r := show_popup_controller_not_found
             ((Retry <$> ms) ++ Retry m :: rest) w in
  r.2 = Returned ∧
  midi r.1 = m ∧
  log r.1 = log w ++ ((ms ++ [m]) ≫= λ x,
                        [EvDialog ButtonRetry; EvConnect (connected x)]) ∧
  progs r.1 = progs w ∧ files r.1 = files w ∧ heap r.1 = heap w.
Proof.
  induction ms as [|x ms IH]; intros w Hw Hms Hm.
  - simpl. rewrite Hw. destruct rest; simpl; rewrite Hm; simpl;
      by rewrite <- app_assoc.
  - apply Forall_cons in Hms as [Hx Hms].
    rewrite fmap_cons. simpl. rewrite Hw.
    destruct (IH (emit (EvConnect (connected x))
                    (set_midi x (emit (EvDialog ButtonRetry) w))))
      as (Hret & Hmidi & Hlog & Hp & Hf & Hh); [done..|].
    simpl in *. split_and!; [done|done| |done|done|done].
    rewrite Hlog. by rewrite <- !app_assoc.
Qed.

End PopupRuns.

(** ** The theorems at work on the small instance *)

Import Fixture.

Lemma parse_config_serialize_roundtrip_witness :
  is_valid (stored 3) = true ∧
  ∃ bs, serialize (stored 3) = Ok bs ∧ length bs = length layout ∧
        parse_config bs Config_init = (stored 3, Ok tt).
Proof.
  split; [reflexivity|].
  apply (parse_config_serialize_roundtrip (stored 3)). reflexivity.
Defined.

Lemma save_writes_payload_witness :
  let saved := save_mpkminiplus "prog.mpkminiplus" world in
  saved.2 = Ok tt ∧
  (∃ data,
     files saved.1 !! "prog.mpkminiplus" = Some data ∧
     length data = length payload ∧
     ∀ i, int_of_byte <$> data !! i = payload !! i) ∧
  (∀ other, other ≠ "prog.mpkminiplus" →
            files saved.1 !! other = files world !! other) ∧
  new_events world (send_programme (currentIndex world) world)
    = [EvConfig; EvSend payload].
Proof.
  apply (save_writes_payload "prog.mpkminiplus" world (tab 3 44) payload).
  - simpl; lia.
  - reflexivity.
  - reflexivity.
  - repeat (constructor; [lia|]). constructor.
Defined.


Lemma load_failure_keeps_tabs_witness :
  let loaded := load_mpkminiplus "short.mpkminiplus" damaged in
  loaded.2 = Raise MalformedInput ∧
  progs loaded.1 = progs damaged ∧
  currentIndex loaded.1 = currentIndex damaged ∧
  midi loaded.1 = midi damaged ∧
  files loaded.1 = files damaged.
Proof.
  apply (load_failure_keeps_tabs "short.mpkminiplus" damaged
           ["001"; "002"]%byte Config_init MalformedInput);
    reflexivity.
Defined.

Lemma send_programme_payload_witness :
  let c := tab_config Config_init 2 (tab 3 44) in
  let sent := send_programme 2 world in
  new_events world sent = [EvConfig; EvSend payload] ∧
  c !! "programme" = Some (2 + 1) ∧
  midi sent.1 = (midi_send_midi_message payload (midi world)).1 ∧
  sent.2 = (midi_send_midi_message payload (midi world)).2.
Proof.
  apply (send_programme_payload 2 world (tab 3 44) payload);
    first [reflexivity | simpl; lia].
Defined.


Lemma one_attempt_per_retry_witness :
  show_popup_controller_not_found [Retry unplugged; Retry akai; Close] offline
    = show_popup_controller_not_found [Retry akai; Close]
        (emit (EvConnect false)
           (set_midi unplugged (emit (EvDialog ButtonRetry) offline))).
Proof.
  refine (proj2 (proj1 (proj2 (one_attempt_per_retry [Retry akai; Close]
                                 offline unplugged)) _)).
  reflexivity.
Defined.


Lemma copy_to_increments_channels_witness :
  let c := tab_config Config_init 2 (tab 3 44) in
  let copied := copy_to 1 world in
  ∃ conf,
    copied.2 = Ok tt ∧
    progs copied.1
      = <[Z.to_nat (1 - 1) := fill_prog conf (tab 1 40)]> (progs world) ∧
    conf !! "programme" = Some (2 + 1) ∧
    conf !! "pad_channel" = Some (3 + 1) ∧
    conf !! "key_channel" = Some (3 + 1) ∧
    (∀ name, name ≠ "pad_channel" → name ≠ "key_channel" →
             conf !! name = c !! name) ∧
    new_events world copied = [EvConfig] ∧
    midi copied.1 = midi world.
Proof.
  apply (copy_to_increments_channels 1 world (tab 3 44) (tab 1 40) 3 3);
    first [reflexivity | simpl; lia].
Defined.

Lemma other_paths_touch_nothing_witness :
  endswith EmptyString ".mpkminiplus" = false ∧
  ∀ op, op = file_open ∨ op = file_save_as →
    let r := op ("notes.txt", "All files (*)") world in
    r.2 = Ok tt ∧
    new_events world r = [EvPrint ["Unrecognized filetype"]] ∧
    files r.1 = files world ∧
    progs r.1 = progs world ∧
    currentIndex r.1 = currentIndex world ∧
    midi r.1 = midi world ∧
    heap r.1 = heap world.
Proof.
  apply (other_paths_touch_nothing ("notes.txt", "All files (*)") world).
  reflexivity.
Defined.


Lemma send_programme_no_such_tab_witness :
  let sent := send_programme 8 world in
  sent.2 = Raise IndexError ∧
  new_events world sent = [EvConfig] ∧
  midi sent.1 = midi world.
Proof. apply (send_programme_no_such_tab 8 world). simpl. lia. Defined.

Lemma get_ram_asks_before_looking_witness :
  let got := get_ram astray in
  new_events astray got = [EvGetProgramme 0] ∧
  midi got.1 = (midi_get_programme 0 (midi astray)).1 ∧
  progs got.1 = progs astray ∧
  got.2 = match (midi_get_programme 0 (midi astray)).2 with
          | Ok _ => Raise IndexError
          | Raise e => Raise e
          end.
Proof. apply (get_ram_asks_before_looking astray). simpl. lia. Defined.

Lemma copy_to_zero_fills_last_tab_witness :
  let c := tab_config Config_init 2 (tab 3 44) in
  let conf := <["key_channel" := 3 + 1]> (<["pad_channel" := 3 + 1]> c) in
  copy_to 0 world =
    (set_progs (alter (fill_prog conf) (length (progs world) - 1)%nat
                  (progs world))
       (set_heap (heap world ++ [conf]) (emit EvConfig world)),
     Ok tt).
Proof.
  apply (copy_to_zero_fills_last_tab world (tab 3 44) 3 3);
    first [reflexivity | simpl; lia].
Defined.

Lemma copy_to_no_such_target_witness :
  (copy_to 9 world).2 = Raise IndexError ∧
  progs (copy_to 9 world).1 = progs world.
Proof.
  apply (copy_to_no_such_target 9 world (tab 3 44) 3 3);
    first [reflexivity | simpl; lia].
Defined.

Lemma copy_to_without_channel_witness :
  (copy_to (H:=refusing) 1 blank).2 = Raise AttributeError ∧
  progs (copy_to (H:=refusing) 1 blank).1 = progs blank.
Proof.
  apply (copy_to_without_channel (H:=refusing) 1 blank bare).
  - simpl; lia.
  - reflexivity.
  - left. reflexivity.
Defined.

Lemma get_tab_programme_in_place_witness :
  let w := set_heap [stored 1; ∅] world in
  let r := get_tab_programme 1%nat 2 w in
  r.2 = Ok 1%nat ∧
  length (heap r.1) = length (heap w) ∧
  (heap r.1 !!! 1%nat) !! "octave" =
    match values (knobs_group_box (tab 3 44)) !! "octave" with
    | Some v => Some v
    | None =>
        match values (pads_group_box (tab 3 44)) !! "octave" with
        | Some v => Some v
        | None =>
            match values (misc (tab 3 44)) !! "octave" with
            | Some v => Some v
            | None =>
                if decide ("octave" = "programme") then Some (2 + 1)
                else (∅ : Config) !! "octave"
            end
        end
    end.
Proof.
  apply (get_tab_programme_in_place [stored 1] ∅ 2
           (set_heap [stored 1; ∅] world) (tab 3 44) "octave");
    first [reflexivity | simpl; lia].
Defined.

Lemma save_overflow_leaves_prefix_witness :
  let saved := save_mpkminiplus "loud.mpkminiplus" loud in
  saved.2 = Raise OverflowError ∧
  ∃ data, files saved.1 !! "loud.mpkminiplus" = Some data ∧
          int_of_byte <$> data = [1; 3; 3].
Proof.
  apply (save_overflow_leaves_prefix "loud.mpkminiplus" loud (tab 3 300)
           [1; 3; 3] 300 [301; 7; 0; 127; 4]).
  - simpl; lia.
  - reflexivity.
  - reflexivity.
  - repeat (constructor; [lia|]). constructor.
  - lia.
Defined.

Lemma save_failure_empties_file_witness :
  let saved := save_mpkminiplus (H:=refusing) "short.mpkminiplus" damaged in
  saved.2 = Raise (Raised "InvalidConfiguration") ∧
  files saved.1 = <["short.mpkminiplus" := []]> (files damaged).
Proof.
  apply (save_failure_empties_file (H:=refusing) "short.mpkminiplus" damaged
           (tab 3 44) (Raised "InvalidConfiguration")).
  - simpl; lia.
  - reflexivity.
  - reflexivity.
Defined.

Lemma save_no_such_tab_witness :
  let saved := save_mpkminiplus "prog.mpkminiplus" astray in
  saved.2 = Raise IndexError ∧
  files saved.1 = files astray ∧
  new_events astray saved = [EvPrint ["Saving"; "prog.mpkminiplus"]; EvConfig].
Proof. apply (save_no_such_tab "prog.mpkminiplus" astray). simpl. lia. Defined.

Lemma file_open_missing_file_witness :
  file_open ("gone.mpkminiplus", "MPK mini Plus files (*.mpkminiplus)") world =
    (emit (EvOpen "gone.mpkminiplus" false)
       (emit (EvPrint ["Loading"; "gone.mpkminiplus"]) world),
     Raise FileNotFoundError).
Proof.
  apply (file_open_missing_file
           ("gone.mpkminiplus", "MPK mini Plus files (*.mpkminiplus)")
           "gone" world); reflexivity.
Defined.

Lemma load_reads_what_save_wrote_witness :
  let saved := save_mpkminiplus "prog.mpkminiplus" world in
  let loaded :=
    load_mpkminiplus "prog.mpkminiplus" (set_currentIndex 5 saved.1) in
  loaded.2 = Ok tt ∧
  last (heap loaded.1) = Some (tab_config Config_init 2 (tab 3 44)) ∧
  progs loaded.1 =
    alter (fill_prog (tab_config Config_init 2 (tab 3 44))) (Z.to_nat 5)
      (progs world).
Proof.
  apply (load_reads_what_save_wrote "prog.mpkminiplus" world (tab 3 44)
           payload 5 (tab_config Config_init 2 (tab 3 44)) (Ok tt)).
  - simpl; lia.
  - reflexivity.
  - reflexivity.
  - repeat (constructor; [lia|]). constructor.
  - simpl; lia.
  - reflexivity.
Defined.


Lemma get_all_programmes_partial_witness :
  let cs := device_replies (midi fading) (seqZ 1 8) in
  let r := get_all_programmes fading in
  (length cs ≤ 8)%nat ∧
  (∀ i c, cs !! i = Some c →
          progs r.1 !! i = fill_prog c <$> progs fading !! i) ∧
  (∀ j, (length cs ≤ j)%nat → progs r.1 !! j = progs fading !! j) ∧
  (length cs = 8%nat →
     ∃ refs, r.2 = Ok refs ∧ length refs = 8%nat ∧
       ∀ i c, cs !! i = Some c →
         ∃ ref, refs !! i = Some ref ∧ heap r.1 !! ref = Some c) ∧
  ((length cs < 8)%nat → ∃ e, r.2 = Raise e).
Proof. apply (get_all_programmes_partial fading). simpl. lia. Defined.

Lemma popup_stops_at_first_connection_witness :
  let r := show_popup_controller_not_found
             ((Retry <$> [unplugged; unplugged]) ++ Retry akai :: [Close])
             offline in
  r.2 = Returned ∧
  midi r.1 = akai ∧
  log r.1 = log offline ++ (([unplugged; unplugged] ++ [akai]) ≫= λ x,
              [EvDialog ButtonRetry; EvConnect (connected x)]) ∧
  progs r.1 = progs offline ∧ files r.1 = files offline ∧
  heap r.1 = heap offline.
Proof.
  apply (popup_stops_at_first_connection [unplugged; unplugged] akai [Close]
           offline).
  - reflexivity.
  - repeat constructor.
  - reflexivity.
Defined.
